(** * todo-list service: start-up, shutdown and migration registry

    A shallow embedding of the Go sources

      - [app/app.go]           ([Version], [Config], [Start])
      - [app/cli.go]           ([CliCommand])
      - package [migrations]   ([Migration], [sqlMigrations], [init])
      - [cmd/service/main.go]  ([main], and [extractKeys] of its tests)

    together with small executable models of the library calls these
    files make (envconfig, gin, bun's migrate, path, os/signal).  Effects
    are recorded as a trace of events; a panic, a blocked goroutine and
    [os.Exit] are outcomes of a computation. *)

From Stdlib Require Import ZArith Lia Ascii String.
From stdpp Require Import base option strings list gmap sorting.

Local Open Scope Z_scope.

(** ** Package [unicode] *)

Module unicode.

(** [unicode.IsSpace] on a rune of one byte: tab, line feed, vertical
    tab, form feed, carriage return and space. *)
Definition isSpace1 (c : ascii) : bool :=
  ((9 <=? N_of_ascii c)%N && (N_of_ascii c <=? 13)%N) || (N_of_ascii c =? 32)%N.

(** On a rune of two bytes: U+0085 and U+00A0, encoded C2 85 and C2 A0. *)
Definition isSpace2 (c1 c2 : ascii) : bool :=
  (N_of_ascii c1 =? 194)%N
  && ((N_of_ascii c2 =? 133)%N || (N_of_ascii c2 =? 160)%N).

(** On a rune of three bytes: U+1680 (E1 9A 80), U+2000 to U+200A,
    U+2028, U+2029 and U+202F (E2 80 80 to 8A, A8, A9, AF), U+205F
    (E2 81 9F) and U+3000 (E3 80 80). *)
Definition isSpace3 (c1 c2 c3 : ascii) : bool :=
  let b1 := N_of_ascii c1 in
  let b2 := N_of_ascii c2 in
  let b3 := N_of_ascii c3 in
  ((b1 =? 225) && (b2 =? 154) && (b3 =? 128))%N
  || ((b1 =? 226) && (b2 =? 128)
      && (((128 <=? b3) && (b3 <=? 138)) || (b3 =? 168) || (b3 =? 169)
          || (b3 =? 175)))%N
  || ((b1 =? 226) && (b2 =? 129) && (b3 =? 159))%N
  || ((b1 =? 227) && (b2 =? 128) && (b3 =? 128))%N.

End unicode.

(** ** Go strings *)

Module strings.

(** [len(s)] *)
Definition len (s : string) : nat := String.length s.

(** [s[n:]] *)
Fixpoint drop (n : nat) (s : string) : string :=
  match n, s with
  | O, _ => s
  | S _, EmptyString => EmptyString
  | S n', String _ s' => drop n' s'
  end.

(** [strings.HasSuffix(s, suffix)]:
    [len(s) >= len(suffix) && s[len(s)-len(suffix):] == suffix] *)
Definition HasSuffix (s suffix : string) : bool :=
  (len suffix <=? len s)%nat && String.eqb (drop (len s - len suffix) s) suffix.

(** [strings.Join(elems, sep)] *)
Fixpoint Join (elems : list string) (sep : string) : string :=
  match elems with
  | [] => ""
  | [e] => e
  | e :: rest => e +:+ sep +:+ Join rest sep
  end.

(** The elements of [s] between slashes: [strings.Split(s, "/")]. *)
Fixpoint SplitSlash (s : string) : list string :=
  match s with
  | EmptyString => [""]
  | String c s' =>
      if Ascii.eqb c "/"%char then "" :: SplitSlash s'
      else match SplitSlash s' with
           | e :: es => String c e :: es
           | [] => [String c ""]
           end
  end.

(** Last byte of a string, if any. *)
Fixpoint lastChar (s : string) : option ascii :=
  match s with
  | EmptyString => None
  | String c EmptyString => Some c
  | String _ s' => lastChar s'
  end.

(** Longest prefix of [s] whose bytes satisfy [p], and the rest. *)
Fixpoint span (p : ascii -> bool) (s : string) : string * string :=
  match s with
  | EmptyString => ("", "")
  | String c s' =>
      if p c then let '(a, b) := span p s' in (String c a, b)
      else ("", s)
  end.

(** The decimal digits ['0'..'9']. *)
Definition isDigit (c : ascii) : bool :=
  (48 <=? N_of_ascii c)%N && (N_of_ascii c <=? 57)%N.

Fixpoint allDigits (s : string) : bool :=
  match s with
  | EmptyString => true
  | String c s' => isDigit c && allDigits s'
  end.

(** The number a string of decimal digits denotes, continuing [acc]. *)
Fixpoint decimal (acc : Z) (s : string) : Z :=
  match s with
  | EmptyString => acc
  | String c s' => decimal (10 * acc + (Z.of_N (N_of_ascii c) - 48)) s'
  end.

(** All bytes of [s] satisfy [p]. *)
Fixpoint allBytes (p : ascii -> bool) (s : string) : bool :=
  match s with
  | EmptyString => true
  | String c s' => p c && allBytes p s'
  end.

(** Where a span stops: at the end, or at a byte that fails [p]. *)
Definition stops (p : ascii -> bool) (b : string) : Prop :=
  match b with
  | EmptyString => True
  | String c _ => p c = false
  end.

(** [strings.IndexByte(s, c) >= 0] *)
Fixpoint hasByte (c : ascii) (s : string) : bool :=
  match s with
  | EmptyString => false
  | String x s' => Ascii.eqb x c || hasByte c s'
  end.

(** The bytes of [s] from the last to the first. *)
Fixpoint reverse (s : string) : string :=
  match s with
  | EmptyString => EmptyString
  | String c s' => reverse s' +:+ String c EmptyString
  end.

(** [strings.HasPrefix(s, prefix)] *)
Fixpoint HasPrefix (s prefix : string) : bool :=
  match prefix, s with
  | EmptyString, _ => true
  | String p prefix', String c s' => Ascii.eqb c p && HasPrefix s' prefix'
  | String _ _, EmptyString => false
  end.

Section Trim.

(** Which runes of one, two and three bytes are cut. *)
Variable cut1 : ascii -> bool.
Variable cut2 : ascii -> ascii -> bool.
Variable cut3 : ascii -> ascii -> ascii -> bool.

(** [s] begins with a rune that is cut. *)
Definition leads (s : string) : bool :=
  match s with
  | String c1 s1 =>
      cut1 c1
      || match s1 with
         | String c2 s2 =>
             cut2 c1 c2
             || match s2 with
                | String c3 _ => cut3 c1 c2 c3
                | EmptyString => false
                end
         | EmptyString => false
         end
  | EmptyString => false
  end.

(** [s] without its leading runes that are cut. *)
Fixpoint trimLeading (s : string) : string :=
  match s with
  | EmptyString => s
  | String c1 s1 =>
      if cut1 c1 then trimLeading s1
      else
        match s1 with
        | EmptyString => s
        | String c2 s2 =>
            if cut2 c1 c2 then trimLeading s2
            else
              match s2 with
              | EmptyString => s
              | String c3 s3 => if cut3 c1 c2 c3 then trimLeading s3 else s
              end
        end
  end.

(** A byte that belongs to no rune that is cut. *)
Definition blocks (c : ascii) : Prop :=
  cut1 c = false
  /\ (forall x, cut2 c x = false /\ cut2 x c = false)
  /\ (forall x y, cut3 c x y = false /\ cut3 x c y = false /\ cut3 x y c = false).

End Trim.

(** [strings.TrimLeftFunc(s, unicode.IsSpace)] *)
Definition TrimLeft (s : string) : string :=
  trimLeading unicode.isSpace1 unicode.isSpace2 unicode.isSpace3 s.

(** The same on a reversed string, where the bytes of a rune come last
    byte first. *)
Definition TrimLeftRev (s : string) : string :=
  trimLeading unicode.isSpace1
    (fun c1 c2 => unicode.isSpace2 c2 c1)
    (fun c1 c2 c3 => unicode.isSpace3 c3 c2 c1) s.

(** [strings.TrimRightFunc(s, unicode.IsSpace)] *)
Definition TrimRight (s : string) : string :=
  reverse (TrimLeftRev (reverse s)).

(** [strings.TrimSpace(s)] *)
Definition TrimSpace (s : string) : string := TrimRight (TrimLeft s).

(** A byte of ASCII that is no white space. *)
Definition solid (c : ascii) : bool :=
  (N_of_ascii c <? 128)%N && negb (unicode.isSpace1 c).

(** [strings.SplitN(s, sep, 2)] for a separator of one byte: [s] cut at
    its first separator, or [s] alone when it has none. *)
Fixpoint SplitN2 (s : string) (sep : ascii) : list string :=
  match s with
  | EmptyString => [EmptyString]
  | String c s' =>
      if Ascii.eqb c sep then [EmptyString; s']
      else match SplitN2 s' sep with
           | [a; b] => [String c a; b]
           | _ => [s]
           end
  end.

(** [strings.Split(s, sep)] for a separator of one byte. *)
Fixpoint SplitByte (sep : ascii) (s : string) : list string :=
  match s with
  | EmptyString => [EmptyString]
  | String c s' =>
      if Ascii.eqb c sep then EmptyString :: SplitByte sep s'
      else match SplitByte sep s' with
           | e :: es => String c e :: es
           | [] => [String c EmptyString]
           end
  end.

End strings.

(** ** Package [bufio] *)

Module bufio.

(** [bufio.MaxScanTokenSize] *)
Definition MaxScanTokenSize : nat := 64 * 1024.

(** [dropCR]: the data without one trailing carriage return. *)
Fixpoint dropCR (data : string) : string :=
  match data with
  | EmptyString => data
  | String c EmptyString => if Ascii.eqb c "013"%char then EmptyString else data
  | String c rest => String c (dropCR rest)
  end.

(** A line fits the buffer of the scanner together with its line feed. *)
Definition fits (line : string) : bool :=
  (String.length line <? MaxScanTokenSize)%nat.

(** The tokens a scanner with [ScanLines] yields for the pieces of its
    input between line feeds; the last piece is the final line, which
    has no line feed, and is no token when empty.  Scanning ends at the
    first line that does not fit the buffer. *)
Fixpoint tokens (pieces : list string) : list string :=
  match pieces with
  | [] => []
  | [final] =>
      if String.eqb final "" then []
      else if fits final then [dropCR final] else []
  | line :: rest =>
      if fits line then dropCR line :: tokens rest else []
  end.

(** The values of [scanner.Text()] after each [scanner.Scan()] that
    succeeds, for a scanner over [content]. *)
Definition ScanLines (content : string) : list string :=
  tokens (strings.SplitByte "010"%char content).

End bufio.

(** ** Package [path] *)

Module path.

(** One step of [path.Clean] on a path element.  [stack] holds the
    elements written so far, the last one first. *)
Definition cleanStep (rooted : bool) (stack : list string) (elem : string)
  : list string :=
  if String.eqb elem "" then stack            (* empty path element *)
  else if String.eqb elem "." then stack      (* . element *)
  else if String.eqb elem ".." then           (* .. element *)
    match stack with
    | top :: below =>
        if String.eqb top ".." then ".." :: stack   (* leading ../.. prefix *)
        else below                                  (* can backtrack *)
    | [] => if rooted then [] else [".."]
    end
  else elem :: stack.                         (* real path element *)

(** [path.Clean]: the shortest path name equivalent to [p]. *)
Definition Clean (p : string) : string :=
  match p with
  | EmptyString => "."
  | String c rest =>
      if Ascii.eqb c "/"%char then
        "/" +:+ strings.Join
                  (rev (fold_left (cleanStep true) (strings.SplitSlash rest) []))
                  "/"
      else
        match rev (fold_left (cleanStep false) (strings.SplitSlash p) []) with
        | [] => "."
        | elems => strings.Join elems "/"
        end
  end.

(** [path.Join(a, b)]: empty elements are ignored, the result is
    cleaned; the join of empty elements is the empty string. *)
Definition Join (a b : string) : string :=
  if String.eqb a "" then
    if String.eqb b "" then "" else Clean b
  else if String.eqb b "" then Clean a
  else Clean (a +:+ "/" +:+ b).

(** [path.IsAbs]: the path begins with a slash. *)
Definition IsAbs (p : string) : bool :=
  match p with
  | String c _ => Ascii.eqb c "/"%char
  | EmptyString => false
  end.

(** A path element that [Clean] keeps as it is: it has no slash and
    is neither empty, [.] nor [..]. *)
Definition kept (e : string) : Prop :=
  strings.SplitSlash e = [e] /\
  forall rooted stack, cleanStep rooted stack e = e :: stack.

(** The absolute path with the elements [es]: [/e1/.../en]. *)
Definition abs (es : list string) : string := "/" +:+ strings.Join es "/".

End path.

(** ** Package [time] *)

Module time.

(** [time.Duration]: a signed count of nanoseconds. *)
Definition Duration := Z.

Definition Nanosecond : Duration := 1.
Definition Second : Duration := 1000000000.

End time.

(** ** Package [gin] (github.com/gin-gonic/gin) *)

Module gin.

(** [gin.H]: a JSON object; the values this program stores are strings. *)
Abbreviation H := (gmap string string).

(** The parts of [*http.Request] a handler can look at. *)
Record Request := mkRequest {
  Method : string;
  URLPath : string;
  RawQuery : string;
  Header : list (string * string);
  Body : string;
}.

(** What has been written to the response. *)
Record Response := mkResponse {
  Status : Z;
  ContentType : string;
  JSONBody : option H;
}.

Record Context := mkContext {
  Req : Request;
  Writer : Response;
}.

(** A fresh context: nothing written, status 200 by default. *)
Definition newContext (r : Request) : Context :=
  mkContext r (mkResponse 200 "" None).

(** [c.JSON(code, obj)]: writes the status, the JSON content type and
    the serialised object. *)
Definition JSON (code : Z) (obj : H) (c : Context) : Context :=
  mkContext (Req c) (mkResponse code "application/json; charset=utf-8" (Some obj)).

Definition HandlerFunc := Context -> Context.

Record route := mkRoute {
  routeMethod : string;
  routePath : string;
  routeHandler : HandlerFunc;
}.

(** The engine's route table: the routes in the order of their
    registration, each under its path as written. *)
Definition Engine := list route.

(** What [addRoute] makes of the wildcards [:name] and [*name] of a
    path.  gin panics on a wildcard without a name, on a second
    wildcard in one path element, on a catch-all that is not the end
    of the path, and on a wildcard that conflicts with a route of the
    tree; the details differ between the versions of gin, and the
    sources do not fix the version.  The rules are therefore a
    parameter: from the paths already registered and the new path to
    whether [addRoute] panics. *)
Definition WildcardRules := list string -> string -> bool.

(** A router group is its base path. *)
Definition RouterGroup := string.

(** [gin.New()]: no routes, root group ["/"]. *)
Definition New : Engine := [].
Definition rootGroup : RouterGroup := "/".

(** gin's [joinPaths]. *)
Definition joinPaths (absolutePath relativePath : string) : string :=
  if String.eqb relativePath "" then absolutePath
  else
    let finalPath := path.Join absolutePath relativePath in
    if bool_decide (strings.lastChar relativePath = Some "/"%char)
       && negb (bool_decide (strings.lastChar finalPath = Some "/"%char))
    then finalPath +:+ "/"
    else finalPath.

(** [group.Group(relativePath)] *)
Definition Group (g : RouterGroup) (relativePath : string) : RouterGroup :=
  joinPaths g relativePath.

(** The route is registered for the method, under the very path. *)
Definition matches (method path : string) (r : route) : bool :=
  String.eqb (routeMethod r) method && String.eqb (routePath r) path.

(** [group.GET(relativePath, handler)]: registers the handler under
    the absolute path; [None] is the panic of [addRoute], when a
    handler is already registered for the path or when the rules for
    wildcards refuse it. *)
Definition GET (refuses : WildcardRules) (e : Engine) (g : RouterGroup)
    (relativePath : string) (h : HandlerFunc) : option Engine :=
  let absolutePath := joinPaths g relativePath in
  if existsb (matches "GET" absolutePath) e then None
  else if refuses (routePath <$> e) absolutePath then None
  else Some (e ++ [mkRoute "GET" absolutePath h]).

(** [engine.ServeHTTP] on a request for the path of a route as it was
    written at registration: the response of the handler of the route.
    The result is [None] when no route is registered for the method
    under the very path of the request; what gin does then (a
    wildcard element of a registered path that takes the place of an
    element of the request, a redirect, the 404 page) is not part of
    the model. *)
Definition ServeHTTP (e : Engine) (r : Request) : option Response :=
  match find (matches (Method r) (URLPath r)) e with
  | Some rt => Some (Writer (routeHandler rt (newContext r)))
  | None => None
  end.

End gin.

(** ** Package [context] *)

Module context.

(** A context is its deadline, as a duration from its creation;
    [None] for a context that never expires. *)
Record Context := mkContext { Timeout : option time.Duration }.

Definition Background : Context := mkContext None.

(** [context.WithTimeout(parent, d)]: expires after [d], or with the
    parent if that is sooner. *)
Definition WithTimeout (parent : Context) (d : time.Duration) : Context :=
  match Timeout parent with
  | None => mkContext (Some d)
  | Some p => mkContext (Some (Z.min p d))
  end.

End context.

(** ** Effects: events, outcomes and the process monad *)

(** Go [error] values this program can meet. *)
Inductive error :=
| RequiredMissing (key : string)            (* envconfig: required key missing value *)
| ParseError (key field value : string)     (* envconfig: conversion failed *)
| UnsupportedName (fname : string)          (* migrate: unsupported migration name format *)
| NotReached                                (* migrate: not reached *)
| RouteRefused (path : string)              (* gin: the panic of addRoute for the path *)
| OtherError (msg : string).

(** The signals [Start] subscribes to. *)
Inductive Signal := SIGINT | SIGTERM.

#[global] Instance Signal_eq_dec : EqDecision Signal.
Proof. solve_decision. Defined.

(** What the process does to the outside world. *)
Inductive Event :=
| LogInfo (msg : string)
| LogFatal (err : error)
| Handle (method path : string)
| ListenHTTP (port : Z) (router : gin.Engine)
| ListenTelemetry (port : Z)
| Notify (sigs : list Signal)
| Received (sig : Signal)
| StopHTTP (timeout : option time.Duration).

(** How a computation ends: it returns, panics, calls [os.Exit], or
    blocks forever. *)
Inductive Outcome (A : Type) :=
| Done (a : A)
| Panicked (err : error)
| Exited (code : Z)
| Blocked.
Arguments Done {A}.
Arguments Panicked {A}.
Arguments Exited {A}.
Arguments Blocked {A}.

(** A computation is the trace of its events and its outcome. *)
Definition Proc (A : Type) : Type := list Event * Outcome A.

Definition trace {A} (p : Proc A) : list Event := fst p.
Definition outcome {A} (p : Proc A) : Outcome A := snd p.

#[global] Instance Proc_ret : MRet Proc := fun A a => ([], Done a).

#[global] Instance Proc_bind : MBind Proc := fun A B f p =>
  match snd p with
  | Done a => (fst p ++ fst (f a), snd (f a))
  | Panicked e => (fst p, Panicked e)
  | Exited c => (fst p, Exited c)
  | Blocked => (fst p, Blocked)
  end.

Definition emit (ev : Event) : Proc unit := ([ev], Done tt).
Definition panic {A} (err : error) : Proc A := ([], Panicked err).
Definition exit {A} (code : Z) : Proc A := ([], Exited code).
Definition block {A} : Proc A := ([], Blocked).

(** The exit status of a process with the given outcome: 0 on return
    from [main], 2 after an unrecovered panic, the argument of
    [os.Exit]; none while it is blocked. *)
Definition ExitStatus {A} (o : Outcome A) : option Z :=
  match o with
  | Done _ => Some 0
  | Panicked _ => Some 2
  | Exited c => Some c
  | Blocked => None
  end.

(** The events by which the process sets up request handling or binds
    a listener to a port. *)
Definition isServing (ev : Event) : Prop :=
  match ev with
  | Handle _ _ | ListenHTTP _ _ | ListenTelemetry _ => True
  | _ => False
  end.

(** What the sources leave open for one run of the process: what the
    outside world supplies, and the rules of gin for wildcards. *)
Record World := mkWorld {
  Environ : gmap string string;    (* the environment variables *)
  LinkedVersion : option string;   (* -ldflags -X ...app.Version=v, if given *)
  Delivered : option Signal;       (* the first SIGINT or SIGTERM, if one ever comes *)
  StopError : option error;        (* what shutting the HTTP server down returns *)
  RefusesRoute : gin.WildcardRules; (* the rules for wildcards of the linked gin *)
}.

(** ** Package [monitoring] (github.com/Lysoul/gocommon) *)

Module monitoring.

(** The zap logger of the process. *)
Inductive ZapLogger := zap.

(** [monitoring.Logger()] *)
Definition Logger : ZapLogger := zap.

(** [log.Info(msg)] *)
Definition Info (log : ZapLogger) (msg : string) : Proc unit := emit (LogInfo msg).

(** [monitoring.ServeTelemetry(port)]: starts the telemetry listener. *)
Definition ServeTelemetry (port : Z) : Proc unit := emit (ListenTelemetry port).

End monitoring.

(** ** Package [os/signal] *)

Module signal.

(** [signal.Notify(quit, sigs...)] on a fresh channel; the channel is
    represented by the signals it relays. *)
Definition Notify (sigs : list Signal) : Proc (list Signal) :=
  emit (Notify sigs);; mret sigs.

(** [<-quit]: the first relayed signal delivered to the process; the
    receive blocks for ever when none comes. *)
Definition receive (w : World) (quit : list Signal) : Proc Signal :=
  match Delivered w with
  | Some sig =>
      if bool_decide (sig ∈ quit) then emit (Received sig);; mret sig
      else block
  | None => block
  end.

End signal.

(** ** Package [ginserver] (github.com/Lysoul/gocommon) *)

Module ginserver.

(** Modelled from the spec: the declaration of [ginserver.Config] is
    not part of this repository.  [Start] reads its [Prefix] field; the
    specification lists the HTTP settings as port, path prefix and
    CORS flag. *)
Record Config := mkConfig {
  Port : Z;
  Prefix : string;
  EnableCORS : bool;
}.

(** The zero value, as produced by [var config Config]. *)
Definition zero : Config := mkConfig 0 "" false.

(** The stop function [httpStart] returns: it shuts the server down
    under the given context; the world decides what the shutdown
    returns. *)
Definition StopFunc := World -> context.Context -> Proc (option error).

Definition httpStop : StopFunc :=
  fun w ctx =>
    emit (StopHTTP (context.Timeout ctx));;
    mret (StopError w).

(** The start function [InitGin] returns: it binds the HTTP listener
    of the router on the configured port and hands back the stop
    function. *)
Definition httpStart (config : Config) (router : gin.Engine) : Proc StopFunc :=
  emit (ListenHTTP (Port config) router);;
  mret httpStop.

(** [ginserver.InitGin(config, log)]: a new router and its start
    function. *)
Definition InitGin (config : Config) (log : monitoring.ZapLogger)
  : gin.Engine * (gin.Engine -> Proc StopFunc) :=
  (gin.New, httpStart config).

End ginserver.

(** ** Package [envconfig] (github.com/kelseyhightower/envconfig) *)

Module envconfig.

(** The process environment: [os.LookupEnv] is a map lookup. *)
Abbreviation Environ := (gmap string string).

(** What [gatherInfo] collects about one field of the specification
    struct [S]: its name, the environment key, the alternative key of
    the [envconfig] tag, the [default] and [required] tags, and how a
    textual value is stored into the field ([processField]; [None] is
    a conversion error). *)
Record varInfo (S : Type) := mkVarInfo {
  Name : string;
  Key : string;
  Alt : string;
  Default : string;
  Required : bool;
  processField : string -> option (S -> S);
}.
Arguments mkVarInfo {S}.
Arguments Name {S}.
Arguments Key {S}.
Arguments Alt {S}.
Arguments Default {S}.
Arguments Required {S}.
Arguments processField {S}.

(** [value, ok := lookupEnv(info.Key)], then the alternative key. *)
Definition lookup {S} (env : Environ) (info : varInfo S) : option string :=
  match env !! Key info with
  | Some v => Some v
  | None => if String.eqb (Alt info) "" then None else env !! Alt info
  end.

(** The loop of [envconfig.Process] over the gathered fields. *)
Fixpoint Process {S} (env : Environ) (infos : list (varInfo S)) (spec : S)
  : error + S :=
  match infos with
  | [] => inr spec
  | info :: rest =>
      let lk := lookup env info in
      let def := Default info in
      let value :=
        match lk with
        | Some v => v
        | None => def     (* the default, when there is one *)
        end in
      if bool_decide (lk = None) && String.eqb def "" then
        if Required info then
          inl (RequiredMissing
                 (if String.eqb (Alt info) "" then Key info else Alt info))
        else Process env rest spec                     (* continue *)
      else
        match processField info value with
        | None => inl (ParseError (Key info) (Name info) value)
        | Some store => Process env rest (store spec)
        end
  end.

(** A nested struct field contributes the fields of the inner struct;
    each stores into the corresponding part of the outer struct. *)
Definition nested {S T} (get : T -> S) (set : S -> T -> T) (info : varInfo S)
  : varInfo T :=
  mkVarInfo (Name info) (Key info) (Alt info) (Default info) (Required info)
    (fun value =>
       match processField info value with
       | None => None
       | Some store => Some (fun t => set (store (get t)) t)
       end).

(** The text [Process] converts for a field: the value of the variable,
    or the default when the variable is not set and there is one. *)
Definition value {S} (env : Environ) (info : varInfo S) : option string :=
  match lookup env info with
  | Some v => Some v
  | None => if String.eqb (Default info) "" then None else Some (Default info)
  end.

(** A required variable is missing: the field is required, the variable
    is not set and there is no default. *)
Definition missing {S} (env : Environ) (info : varInfo S) : Prop :=
  Required info = true /\ value env info = None.

(** A variable is invalid: the text for its field does not convert. *)
Definition invalid {S} (env : Environ) (info : varInfo S) : Prop :=
  exists v, value env info = Some v /\ processField info v = None.

(** [envconfig.MustProcess]: [Process], panicking on an error. *)
Definition MustProcess {S} (env : Environ) (infos : list (varInfo S)) (spec : S)
  : Proc S :=
  match Process env infos spec with
  | inl err => panic err
  | inr spec' => mret spec'
  end.

End envconfig.

(** ** Package [migrate] (github.com/uptrace/bun/migrate) *)

Module migrate.

(** An embedded file system as [fs.WalkDir] presents it: the regular
    files in walk order (lexical by name), each with its content. *)
Definition FS := list (string * string).

(** A migration.  [Up] and [Down] are the functions built by
    [NewSQLMigrationFunc(fsys, path)], represented by the path of the
    SQL file they execute; [None] is the nil function. *)
Record Migration := mkMigration {
  Name : string;
  Comment : string;
  Up : option string;
  Down : option string;
}.

Definition setComment (c : string) (m : Migration) : Migration :=
  mkMigration (Name m) c (Up m) (Down m).
Definition setUp (f : string) (m : Migration) : Migration :=
  mkMigration (Name m) (Comment m) (Some f) (Down m).
Definition setDown (f : string) (m : Migration) : Migration :=
  mkMigration (Name m) (Comment m) (Up m) (Some f).

(** [*Migrations]: the slice [m.ms]. *)
Definition Migrations := list Migration.
Definition MigrationSlice := list Migration.

Definition NewMigrations : Migrations := [].

Definition isDigit (c : ascii) : bool := strings.isDigit c.
Definition isLower (c : ascii) : bool :=
  (97 <=? N_of_ascii c)%N && (N_of_ascii c <=? 122)%N.
(** The class [[0-9a-z_\-]]. *)
Definition isCommentChar (c : ascii) : bool :=
  isDigit c || isLower c || Ascii.eqb c "_"%char || Ascii.eqb c "-"%char.

(** [filepath.Base]: the last element of the path. *)
Definition Base (fpath : string) : string :=
  if String.eqb fpath "" then "."
  else match rev (filter (fun e => e <> "") (strings.SplitSlash fpath)) with
       | [] => "/"
       | e :: _ => e
       end.

(** [extractMigrationName]: the file name must match
    [^(\d{1,14})_([0-9a-z_\-]+)\.]; the two groups are the name and
    the comment. *)
Definition extractMigrationName (fpath : string) : error + string * string :=
  let fname := Base fpath in
  let '(digits, rest) := strings.span isDigit fname in
  match rest with
  | String "_" rest' =>
      let '(comment, rest'') := strings.span isCommentChar rest' in
      match rest'' with
      | String "." _ =>
          if (1 <=? strings.len digits)%nat && (strings.len digits <=? 14)%nat
             && (1 <=? strings.len comment)%nat
          then inr (digits, comment)
          else inl (UnsupportedName fname)
      | _ => inl (UnsupportedName fname)
      end
  | _ => inl (UnsupportedName fname)
  end.

(** [getOrCreateMigration]: the index of the migration called [name],
    appended to the slice when there is none yet. *)
Definition getOrCreateMigration (name : string) (ms : Migrations)
  : nat * Migrations :=
  match list_find (fun m => Name m = name) ms with
  | Some (i, _) => (i, ms)
  | None => (length ms, ms ++ [mkMigration name "" None None])
  end.

(** The callback [Discover] hands to [fs.WalkDir], for a regular file. *)
Definition discoverFile (ms : Migrations) (fpath : string)
  : Migrations * option error :=
  if negb (strings.HasSuffix fpath ".up.sql")
     && negb (strings.HasSuffix fpath ".down.sql")
  then (ms, None)
  else
    match extractMigrationName fpath with
    | inl err => (ms, Some err)
    | inr (name, comment) =>
        let '(i, ms) := getOrCreateMigration name ms in
        let ms := alter (setComment comment) i ms in
        if strings.HasSuffix fpath ".up.sql" then
          (alter (setUp fpath) i ms, None)
        else if strings.HasSuffix fpath ".down.sql" then
          (alter (setDown fpath) i ms, None)
        else (ms, Some NotReached)
    end.

(** The walk stops at the first error. *)
Fixpoint walk (ms : Migrations) (files : list string)
  : Migrations * option error :=
  match files with
  | [] => (ms, None)
  | f :: rest =>
      match discoverFile ms f with
      | (ms', None) => walk ms' rest
      | (ms', Some err) => (ms', Some err)
      end
  end.

(** [m.Discover(fsys)] *)
Definition Discover (m : Migrations) (fsys : FS) : Migrations * option error :=
  walk m (fst <$> fsys).

(** The comparison [sortAsc] passes to [sort.Slice]:
    [ms[i].Name < ms[j].Name]. *)
Definition less (a b : Migration) : bool := String.ltb (Name a) (Name b).

(** [a] may stand before [b] in a sorted slice: [b] is not [less]
    than [a]. *)
Definition inOrder (a b : Migration) : Prop := less b a = false.

#[global] Instance inOrder_dec : RelDecision inOrder.
Proof. intros a b. unfold inOrder. apply _. Defined.

(** [sortAsc]: [sort.Slice] with [less]. *)
Definition sortAsc (ms : MigrationSlice) : MigrationSlice :=
  merge_sort inOrder ms.

(** [m.Sorted()]: a sorted copy; the receiver is returned unchanged. *)
Definition Sorted (m : Migrations) : MigrationSlice * Migrations :=
  let migrations := m in   (* make + copy *)
  (sortAsc migrations, m).

(** [n] calls of [Sorted], one after the other, on the registry [m]:
    the slices returned and the registry afterwards. *)
Fixpoint SortedCalls (n : nat) (m : Migrations)
  : list MigrationSlice * Migrations :=
  match n with
  | O => ([], m)
  | S n' =>
      let '(migrations, m) := Sorted m in
      let '(rest, m) := SortedCalls n' m in
      (migrations :: rest, m)
  end.

(** The naming convention of the migration files: the name is the time
    of creation in the layout [20060102150405], fourteen decimal
    digits; read as a number it orders the migrations by time. *)
Definition isTimestamp (name : string) : Prop :=
  String.length name = 14%nat /\ strings.allDigits name = true.

Definition timestamp (name : string) : Z := strings.decimal 0 name.

(** The SQL text a migration function runs: the content of its file. *)
Definition ReadFile (fsys : FS) (fpath : string) : option string :=
  snd <$> find (fun e => String.eqb (fst e) fpath) fsys.

End migrate.

(** ** Package [migrations] (db/migrations) *)

Module migrations.

(** [//go:embed *.sql]: the SQL files of the package directory. *)
Definition sqlMigrations : migrate.FS :=
  [("20251105065350_init.up.sql",
    "CREATE TYPE task_priority AS ENUM ('low', 'medium', 'high', 'critical');
CREATE TYPE reminder_vendor AS ENUM ('email', 'discord', 'slack', 'sms', 'push', 'webhook');

CREATE TABLE IF NOT EXISTS tasks (
    id SERIAL PRIMARY KEY,
    title TEXT NOT NULL,
    description TEXT,
    priority task_priority NOT NULL DEFAULT 'medium',
    started_at TIMESTAMPTZ,
    ended_at TIMESTAMPTZ,
    created_at TIMESTAMPTZ NOT NULL DEFAULT now(),
    updated_at TIMESTAMPTZ NOT NULL DEFAULT now()
);

CREATE TABLE IF NOT EXISTS labels (
    id SERIAL PRIMARY KEY,
    name TEXT NOT NULL,
    created_by TEXT,
    created_at TIMESTAMPTZ NOT NULL DEFAULT now(),
    updated_at TIMESTAMPTZ NOT NULL DEFAULT now()
);

CREATE TABLE IF NOT EXISTS reminders (
    id SERIAL PRIMARY KEY,
    task_id INTEGER NOT NULL REFERENCES tasks(id) ON DELETE CASCADE,
    vendor reminder_vendor NOT NULL,
    created_at TIMESTAMPTZ NOT NULL DEFAULT now(),
    updated_at TIMESTAMPTZ NOT NULL DEFAULT now()
);

CREATE TABLE IF NOT EXISTS task_labels (
    task_id INTEGER NOT NULL REFERENCES tasks(id) ON DELETE CASCADE,
    label_id INTEGER NOT NULL REFERENCES labels(id) ON DELETE CASCADE,
    PRIMARY KEY (task_id, label_id)
);

CREATE INDEX IF NOT EXISTS idx_tasks_created_at ON tasks (created_at);
CREATE INDEX IF NOT EXISTS idx_labels_name ON labels (name);
CREATE INDEX IF NOT EXISTS idx_reminders_task_id ON reminders (task_id);")].

(** [init]: [Migration] starts as [migrate.NewMigrations()]; discovery
    over the embedded files fills it, and a discovery error is a
    panic.  The result is the value of the package variable
    [Migration] once initialisation is over. *)
Definition init (embedded : migrate.FS) : Proc migrate.Migrations :=
  let Migration := migrate.NewMigrations in
  let log := monitoring.Logger in
  monitoring.Info log "Discovering SQL migrations...";;
  match migrate.Discover Migration embedded with
  | (_, Some err) => panic err
  | (Migration, None) =>
      monitoring.Info log "SQL migrations discovered successfully";;
      mret Migration
  end.

End migrations.

(** The other version of the package in the sources: the same
    variables, and an [init] that does not log. *)
Module migrationsNoLog.

Definition init (embedded : migrate.FS) : Proc migrate.Migrations :=
  let Migration := migrate.NewMigrations in
  match migrate.Discover Migration embedded with
  | (_, Some err) => panic err
  | (Migration, None) => mret Migration
  end.

End migrationsNoLog.

(** ** Package [app] *)

Module app.

(** [var Version = "unknown"], unless the linker was told to set it. *)
Definition Version (w : World) : string :=
  match LinkedVersion w with
  | Some v => v
  | None => "unknown"
  end.

Record Config := mkConfig {
  HTTP : ginserver.Config;
  ShutdownTimeout : time.Duration;
}.

Definition setHTTP (h : ginserver.Config) (c : Config) : Config :=
  mkConfig h (ShutdownTimeout c).
Definition setShutdownTimeout (d : time.Duration) (c : Config) : Config :=
  mkConfig (HTTP c) d.

(** [var config Config] *)
Definition zero : Config := mkConfig ginserver.zero 0.

(** The handler of [GET basePath/version]. *)
Definition versionHandler (w : World) : gin.HandlerFunc :=
  fun c => gin.JSON 200 {[ "version" := Version w ]} c.

(** The handler of [GET /hello] in the group at [basePath]. *)
Definition helloHandler : gin.HandlerFunc :=
  fun ctx => gin.JSON 200 {[ "message" := "Hello, World!" ]} ctx.

(** [group.GET(relativePath, h)] as a step of the caller: the route
    is added, or the caller panics with gin. *)
Definition GET (w : World) (router : gin.Engine) (group : gin.RouterGroup)
    (relativePath : string) (h : gin.HandlerFunc) : Proc gin.Engine :=
  match gin.GET (RefusesRoute w) router group relativePath h with
  | Some router' =>
      emit (Handle "GET" (gin.joinPaths group relativePath));;
      mret router'
  | None => panic (RouteRefused (gin.joinPaths group relativePath))
  end.

(** The paths under which [Start] registers its two routes. *)
Definition versionPath (basePath : string) : string :=
  gin.joinPaths gin.rootGroup (basePath +:+ "/version").
Definition helloPath (basePath : string) : string :=
  gin.joinPaths (gin.Group gin.rootGroup basePath) "/hello".

(** A prefix that gin leaves as it is: empty, or an absolute path
    [/e1/.../en] of elements that need no cleaning. *)
Definition cleanPrefix (basePath : string) : Prop :=
  basePath = ""
  \/ exists es, es <> [] /\ Forall path.kept es /\ basePath = path.abs es.

Section Libraries.

(** [time.ParseDuration], which envconfig uses for a field of type
    [time.Duration]. *)
Variable ParseDuration : string -> option time.Duration.

(** The fields envconfig gathers from [ginserver.Config] under the
    prefix [HTTP]: their keys, tags and conversions. *)
Variable httpInfos : list (envconfig.varInfo ginserver.Config).

(** [ShutdownTimeout time.Duration `envconfig:"SHUTDOWN_TIMEOUT" default:"20s"`] *)
Definition shutdownTimeoutInfo : envconfig.varInfo Config :=
  envconfig.mkVarInfo "ShutdownTimeout" "SHUTDOWN_TIMEOUT" "SHUTDOWN_TIMEOUT"
    "20s" false
    (fun value => setShutdownTimeout <$> ParseDuration value).

(** [gatherInfo("", &config)]: the fields of [HTTP], then
    [ShutdownTimeout]. *)
Definition gatherInfo : list (envconfig.varInfo Config) :=
  (envconfig.nested HTTP setHTTP <$> httpInfos) ++ [shutdownTimeoutInfo].

Definition Start (w : World) : Proc (option error) :=
  let log := monitoring.Logger in

  config ← envconfig.MustProcess (Environ w) gatherInfo zero;

  let '(router, httpStart) := ginserver.InitGin (HTTP config) log in
  let basePath := ginserver.Prefix (HTTP config) in
  router ← GET w router gin.rootGroup (basePath +:+ "/version") (versionHandler w);

  let apiGroup := gin.Group gin.rootGroup basePath in

  router ← GET w router apiGroup "/hello" helloHandler;

  httpStop ← httpStart router;
  monitoring.ServeTelemetry 3030;;

  quit ← signal.Notify [SIGINT; SIGTERM];
  _ ← signal.receive w quit;
  monitoring.Info log "Shutting down server...";;

  let ctx := context.WithTimeout context.Background (ShutdownTimeout config) in

  _ ← httpStop w ctx;

  mret None.

End Libraries.

End app.

(** ** Package [main] (cmd/service) *)

Module main.

Section Libraries.

Variable ParseDuration : string -> option time.Duration.
Variable httpInfos : list (envconfig.varInfo ginserver.Config).

(** The command [postgres.CliCommand(migrations.Migration)] of the
    gocommon library, run on the arguments that follow [db]. *)
Variable postgresCli :
  migrate.Migrations -> World -> list string -> Proc (option error).

(** What [cli.Run] of urfave/cli does with every other argument
    list: flags such as [--help], an unknown flag or command, no command
    at all, [app] without [start] or with more arguments. *)
Variable cliOther : World -> list string -> Proc (option error).

(** [cli.Run(os.Args)] for the application with the commands
    [app] (subcommand [start]) and [db]: the action of [app start]
    when these are the arguments, the [db] command on what follows
    [db]. *)
Definition Run (Migration : migrate.Migrations) (w : World) (args : list string)
  : Proc (option error) :=
  match args with
  | [_; "app"; "start"] => app.Start ParseDuration httpInfos w
  | _ :: "db" :: rest => postgresCli Migration w rest
  | _ => cliOther w args
  end.

Definition main (Migration : migrate.Migrations) (w : World) (args : list string)
  : Proc unit :=
  err ← Run Migration w args;
  match err with
  | Some e => emit (LogFatal e);; exit 1     (* log.Fatal(err) *)
  | None => mret tt
  end.

(** One run of the program: package initialisation, then [main]. *)
Definition process (embedded : migrate.FS) (w : World) (args : list string)
  : Proc unit :=
  Migration ← migrations.init embedded;
  main Migration w args.

End Libraries.

End main.

(** ** Package [main], the helper of its tests *)

Module main_test.

(** The body of the loop of [extractKeys], for the text of one line. *)
Definition scanLine (keys : list string) (text : string) : list string :=
  let line := strings.TrimSpace text in
  (* Skip empty lines and comments *)
  if String.eqb line "" || strings.HasPrefix line "#" then keys
  else
    match strings.SplitN2 line "="%char with
    | [part0; _] =>
        let key := strings.TrimSpace part0 in
        if negb (String.eqb key "") then keys ++ [key] else keys
    | _ => keys
    end.

(** [extractKeys]: the keys of the lines [KEY=VALUE] of an env file. *)
Definition extractKeys (content : string) : list string :=
  fold_left scanLine (bufio.ScanLines content) [].

End main_test.

(** ** Env files *)

Module EnvFile.

(** What a key of an env file looks like: not empty, no white space
    around it, no [=] and no line feed in it, no [#] in front. *)
Definition isKey (key : string) : bool :=
  negb (String.eqb key "")
  && String.eqb (strings.TrimSpace key) key
  && negb (strings.hasByte "=" key)
  && negb (strings.hasByte "010" key)
  && negb (strings.HasPrefix key "#").

(** A key and a value that make one line. *)
Definition isPair (pair : string * string) : bool :=
  isKey pair.1
  && negb (strings.hasByte "010" pair.2)
  && bufio.fits (pair.1 +:+ "=" +:+ pair.2).

(** An env file with one line [KEY=VALUE] for each pair. *)
Fixpoint render (pairs : list (string * string)) : string :=
  match pairs with
  | [] => EmptyString
  | (key, value) :: rest =>
      key +:+ "=" +:+ value +:+ String "010" (render rest)
  end.

(** Every line of [content] fits the buffer of the scanner. *)
Definition allFit (content : string) : bool :=
  forallb bufio.fits (strings.SplitByte "010" content).

End EnvFile.

(** ** What discovery does *)

Module Discovery.

(** What [Discover] does for one migration file: the migration called
    [name] is changed by [g], after being appended when it is new. *)
Fixpoint upsert (name : string) (g : migrate.Migration -> migrate.Migration)
    (ms : migrate.Migrations) : migrate.Migrations :=
  match ms with
  | [] => [g (migrate.mkMigration name "" None None)]
  | m :: rest =>
      if decide (migrate.Name m = name) then g m :: rest
      else m :: upsert name g rest
  end.

(** The two kinds of migration file. *)
Inductive direction := up | down.

#[global] Instance direction_eq_dec : EqDecision direction.
Proof. solve_decision. Defined.

Definition suffix (d : direction) : string :=
  match d with up => ".up.sql" | down => ".down.sql" end.

Definition script (d : direction) (m : migrate.Migration) : option string :=
  match d with up => migrate.Up m | down => migrate.Down m end.

Definition setScript (d : direction) (f : string) : migrate.Migration -> migrate.Migration :=
  match d with up => migrate.setUp f | down => migrate.setDown f end.

(** A migration as discovery leaves it, for the files [files]: it has a
    script for a direction, and each script it has is one of the files,
    with the suffix of the direction and the name of the migration. *)
Definition discovered (files : list string) (m : migrate.Migration) : Prop :=
  (is_Some (migrate.Up m) \/ is_Some (migrate.Down m))
  /\ forall d f, script d m = Some f ->
       f ∈ files
       /\ strings.HasSuffix f (suffix d) = true
       /\ exists comment,
            migrate.extractMigrationName f = inr (migrate.Name m, comment).

(** A migration file: one whose path ends in [.up.sql] or [.down.sql]. *)
Definition isMigrationFile (fpath : string) : bool :=
  strings.HasSuffix fpath ".up.sql" || strings.HasSuffix fpath ".down.sql".

(** The registry has a migration called [n] with a script for [d]. *)
Definition hasScript (ms : migrate.Migrations) (n : string) (d : direction) : Prop :=
  exists mig, mig ∈ ms /\ migrate.Name mig = n /\ is_Some (script d mig).

End Discovery.

(** ** The runs of [Start] *)

Module Run.

(** The route table [Start] has built when it starts the server. *)
Definition router (w : World) (basePath : string) : gin.Engine :=
  [ gin.mkRoute "GET" (app.versionPath basePath) (app.versionHandler w);
    gin.mkRoute "GET" (app.helloPath basePath) app.helloHandler ].

(** gin accepts the two routes of [Start] under [basePath], the route
    of the version first. *)
Definition accepted (w : World) (basePath : string) : bool :=
  negb (RefusesRoute w [] (app.versionPath basePath))
  && negb (RefusesRoute w [app.versionPath basePath] (app.helloPath basePath)).

(** What [Start] does when gin refuses one of the routes. *)
Definition refused (w : World) (basePath : string) : Proc (option error) :=
  if RefusesRoute w [] (app.versionPath basePath)
  then ([], Panicked (RouteRefused (app.versionPath basePath)))
  else ([Handle "GET" (app.versionPath basePath)],
        Panicked (RouteRefused (app.helloPath basePath))).

(** The events of [Start] up to the point where it waits for a signal. *)
Definition startup (w : World) (config : app.Config) : list Event :=
  let basePath := ginserver.Prefix (app.HTTP config) in
  [ Handle "GET" (app.versionPath basePath);
    Handle "GET" (app.helloPath basePath);
    ListenHTTP (ginserver.Port (app.HTTP config)) (router w basePath);
    ListenTelemetry 3030;
    Notify [SIGINT; SIGTERM] ].

(** The events of [Start] from the signal on. *)
Definition shutdown (config : app.Config) (sig : Signal) : list Event :=
  [ Received sig;
    LogInfo "Shutting down server...";
    StopHTTP (Some (app.ShutdownTimeout config)) ].

(** The response of both handlers: status 200 and a JSON object. *)
Definition ok (obj : gin.H) : gin.Response :=
  gin.mkResponse 200 "application/json; charset=utf-8" (Some obj).

End Run.

(** ** An instance of the library parameters

    The theorems below hold for every [ParseDuration], every field list
    of [ginserver.Config], every [db] command, every behaviour of the
    command line on other arguments and all rules for wildcards.  To
    run the program on concrete inputs the parameters are instantiated
    here: durations and integers in plain decimal notation, a required
    port, an optional prefix and an optional CORS flag, commands that
    do nothing, and rules for wildcards on the syntax of a path. *)

Module Example.

(** The value of a non-empty string of decimal digits. *)
Definition ParseInt (s : string) : option Z :=
  if negb (String.eqb s "") && strings.allDigits s
  then Some (strings.decimal 0 s)
  else None.

(** Durations of the form [<digits><unit>] with the units [ms], [s],
    [m] and [h], within the range of an [int64]. *)
Definition ParseDuration (s : string) : option time.Duration :=
  let '(digits, unit) := strings.span strings.isDigit s in
  n ← ParseInt digits;
  scale ← (if String.eqb unit "ms" then Some 1000000
           else if String.eqb unit "s" then Some time.Second
           else if String.eqb unit "m" then Some (60 * time.Second)
           else if String.eqb unit "h" then Some (3600 * time.Second)
           else None);
  if n * scale <? 2 ^ 63 then Some (n * scale) else None.

Definition setPort (p : Z) (c : ginserver.Config) : ginserver.Config :=
  ginserver.mkConfig p (ginserver.Prefix c) (ginserver.EnableCORS c).
Definition setPrefix (p : string) (c : ginserver.Config) : ginserver.Config :=
  ginserver.mkConfig (ginserver.Port c) p (ginserver.EnableCORS c).
Definition setEnableCORS (b : bool) (c : ginserver.Config) : ginserver.Config :=
  ginserver.mkConfig (ginserver.Port c) (ginserver.Prefix c) b.

Definition ParseBool (s : string) : option bool :=
  if String.eqb s "true" then Some true
  else if String.eqb s "false" then Some false
  else None.

Definition httpInfos : list (envconfig.varInfo ginserver.Config) :=
  [ envconfig.mkVarInfo "Port" "HTTP_PORT" "PORT" "" true
      (fun v => setPort <$> ParseInt v);
    envconfig.mkVarInfo "Prefix" "HTTP_PATH_PREFIX" "PATH_PREFIX" "" false
      (fun v => Some (setPrefix v));
    envconfig.mkVarInfo "EnableCORS" "HTTP_ENABLE_CORS" "ENABLE_CORS" "" false
      (fun v => setEnableCORS <$> ParseBool v) ].

(** A [db] command that does nothing. *)
Definition postgresCli (Migration : migrate.Migrations) (w : World)
    (args : list string) : Proc (option error) :=
  mret None.

(** Other argument lists do nothing either. *)
Definition cliOther (w : World) (args : list string) : Proc (option error) :=
  mret None.

Definition isWildcardByte (c : ascii) : bool :=
  Ascii.eqb c ":" || Ascii.eqb c "*".

(** The wildcard of a path element: the element from its first [:] or
    [*] on. *)
Fixpoint wildcardOf (elem : string) : option string :=
  match elem with
  | EmptyString => None
  | String c rest => if isWildcardByte c then Some elem else wildcardOf rest
  end.

(** A path element with a wildcard that has no name or holds a second
    [:] or [*], or with a catch-all that is not the whole of the last
    element. *)
Definition badElement (last : bool) (elem : string) : bool :=
  match wildcardOf elem with
  | Some (String c name) =>
      String.eqb name ""
      || negb (strings.allBytes (fun x => negb (isWildcardByte x)) name)
      || (Ascii.eqb c "*" && negb (last && String.eqb (String c name) elem))
  | _ => false
  end.

Fixpoint badElements (elems : list string) : bool :=
  match elems with
  | [] => false
  | [elem] => badElement true elem
  | elem :: rest => badElement false elem || badElements rest
  end.

(** Rules for wildcards that look at the new path alone. *)
Definition wildcards : gin.WildcardRules :=
  fun registered path => badElements (strings.SplitSlash path).

Definition Start := app.Start ParseDuration httpInfos.
Definition process := main.process ParseDuration httpInfos postgresCli cliOther.

(** A complete environment, and a run that ends with SIGTERM. *)
Definition environ : gmap string string :=
  {[ "HTTP_PORT" := "8080"; "HTTP_PATH_PREFIX" := "/api";
     "HTTP_ENABLE_CORS" := "true"; "SHUTDOWN_TIMEOUT" := "5s" ]}.

Definition world : World := mkWorld environ None (Some SIGTERM) None wildcards.

(** A run under a prefix that holds a catch-all. *)
Definition catchAll : World :=
  mkWorld (<[ "HTTP_PATH_PREFIX" := "/*x" ]> environ) None (Some SIGTERM) None
    wildcards.

(** The configuration [Start] loads from that environment. *)
Definition config : app.Config :=
  app.mkConfig (ginserver.mkConfig 8080 "/api" true) (5 * time.Second).

(** Migration files of three points in time, one of them with a down
    script, and the registry discovery builds from them. *)
Definition files : migrate.FS :=
  [ ("20240102030405_users.down.sql", "DROP TABLE users;");
    ("20240102030405_users.up.sql", "CREATE TABLE users (id SERIAL);");
    ("20251105065350_init.up.sql", "SELECT 1;");
    ("20230907120000_first.up.sql", "SELECT 0;") ].

Definition registry : migrate.Migrations :=
  (migrate.Discover migrate.NewMigrations files).1.

(** The migration of the repository. *)
Definition init : migrate.Migration :=
  migrate.mkMigration "20251105065350" "init"
    (Some "20251105065350_init.up.sql") None.

(** A line of [bufio.MaxScanTokenSize] bytes. *)
Fixpoint fill (n : nat) : string :=
  match n with
  | O => EmptyString
  | S n' => String "x" (fill n')
  end.

Definition longLine : string := fill bufio.MaxScanTokenSize.

End Example.

(** * Properties *)

(** ** Strings and paths *)

Section StringFacts.

Lemma append_assoc (a b c : string) : (a +:+ b) +:+ c = a +:+ (b +:+ c).
Proof.
  induction a as [|x a IH]; [done |].
  change (String x ((a +:+ b) +:+ c) = String x (a +:+ b +:+ c)).
  by f_equal.
Qed.

Lemma lastChar_cons (x : ascii) (s : string) (c : ascii) :
  strings.lastChar s = Some c -> strings.lastChar (String x s) = Some c.
Proof. destruct s; simpl; [discriminate | done]. Qed.

Lemma lastChar_append (a b : string) (c : ascii) :
  strings.lastChar b = Some c -> strings.lastChar (a +:+ b) = Some c.
Proof.
  intros Hb. induction a as [|x a IH]; [done |].
  change (String x a +:+ b) with (String x (a +:+ b)).
  by apply lastChar_cons.
Qed.

Lemma lastChar_Join_snoc (elems : list string) (e sep : string) (c : ascii) :
  strings.lastChar e = Some c ->
  strings.lastChar (strings.Join (elems ++ [e]) sep) = Some c.
Proof.
  intros He. induction elems as [|a elems IH]; [done |].
  change ((a :: elems) ++ [e]) with (a :: (elems ++ [e])).
  destruct (elems ++ [e]) as [|b rest] eqn:E.
  - by destruct elems.
  - change (strings.Join (a :: b :: rest) sep)
      with (a +:+ sep +:+ strings.Join (b :: rest) sep).
    by do 2 apply lastChar_append.
Qed.

Lemma SplitSlash_cons (s : string) :
  exists e es, strings.SplitSlash s = e :: es.
Proof.
  induction s as [|x s [e [es IH]]]; simpl; [by eauto |].
  destruct (Ascii.eqb x "/"); [by eauto |]. rewrite IH. eauto.
Qed.

Lemma SplitSlash_append (x e : string) :
  strings.SplitSlash (x +:+ String "/" e)
  = strings.SplitSlash x ++ strings.SplitSlash e.
Proof.
  induction x as [|c x IH]; [done |].
  change (String c x +:+ String "/" e) with (String c (x +:+ String "/" e)).
  cbn [strings.SplitSlash]. rewrite IH.
  destruct (Ascii.eqb c "/"); [done |].
  destruct (SplitSlash_cons x) as (h & t & ->). done.
Qed.

End StringFacts.

Lemma kept_version : path.kept "version".
Proof. split; [done | by intros [] st]. Qed.

Lemma kept_hello : path.kept "hello".
Proof. split; [done | by intros [] st]. Qed.

Lemma Clean_lastChar (x e : string) (c : ascii) :
  path.kept e -> strings.lastChar e = Some c ->
  strings.lastChar (path.Clean (x +:+ String "/" e)) = Some c.
Proof.
  intros [Hsplit Hstep] Hc.
  assert (Hfold : forall rooted l,
    rev (fold_left (path.cleanStep rooted) (l ++ [e]) [])
    = rev (fold_left (path.cleanStep rooted) l []) ++ [e]).
  { intros rooted l. by rewrite fold_left_app; simpl; rewrite Hstep. }
  destruct x as [|a x].
  - change ("" +:+ String "/" e) with (String "/" e).
    unfold path.Clean. rewrite Ascii.eqb_refl, Hsplit.
    cbn [fold_left]. rewrite Hstep. cbn [rev app strings.Join].
    by apply lastChar_append.
  - change (String a x +:+ String "/" e) with (String a (x +:+ String "/" e)).
    unfold path.Clean. destruct (Ascii.eqb a "/").
    + rewrite SplitSlash_append, Hsplit, Hfold.
      apply lastChar_append. by apply lastChar_Join_snoc.
    + change (String a (x +:+ String "/" e)) with (String a x +:+ String "/" e).
      rewrite SplitSlash_append, Hsplit, Hfold.
      destruct (rev _ ++ [e]) as [|h t] eqn:E.
      * by destruct (rev _).
      * rewrite <- E. by apply lastChar_Join_snoc.
Qed.

Lemma joinPaths_lastChar (a x e : string) (c : ascii) :
  path.kept e -> strings.lastChar e = Some c -> c <> "/"%char ->
  strings.lastChar (gin.joinPaths a (x +:+ String "/" e)) = Some c.
Proof.
  intros He Hc Hne.
  assert (Hrel : strings.lastChar (x +:+ String "/" e) = Some c).
  { apply lastChar_append. by apply lastChar_cons. }
  unfold gin.joinPaths.
  destruct (String.eqb_spec (x +:+ String "/" e) "") as [E|_].
  { rewrite E in Hrel. discriminate. }
  rewrite Hrel. rewrite bool_decide_eq_false_2 by congruence. cbn [andb].
  unfold path.Join.
  destruct (String.eqb_spec (x +:+ String "/" e) "") as [E|_].
  { rewrite E in Hrel. discriminate. }
  destruct (String.eqb a "").
  - by apply Clean_lastChar.
  - replace (a +:+ "/" +:+ x +:+ String "/" e)
      with ((a +:+ "/" +:+ x) +:+ String "/" e)
      by (by rewrite !append_assoc).
    by apply Clean_lastChar.
Qed.

Lemma versionPath_lastChar (basePath : string) :
  strings.lastChar (app.versionPath basePath) = Some "n"%char.
Proof.
  unfold app.versionPath.
  change (basePath +:+ "/version") with (basePath +:+ String "/" "version").
  by apply joinPaths_lastChar; [apply kept_version | |].
Qed.

Lemma helloPath_lastChar (basePath : string) :
  strings.lastChar (app.helloPath basePath) = Some "o"%char.
Proof.
  unfold app.helloPath.
  change "/hello" with ("" +:+ String "/" "hello").
  by apply joinPaths_lastChar; [apply kept_hello | |].
Qed.

Lemma versionPath_ne_helloPath (basePath : string) :
  app.versionPath basePath <> app.helloPath basePath.
Proof.
  intros E. pose proof (versionPath_lastChar basePath) as Hv.
  rewrite E, helloPath_lastChar in Hv. discriminate.
Qed.

(** ** Routes under a clean prefix *)

Lemma Join_snoc (es : list string) (e sep : string) :
  es <> [] ->
  strings.Join (es ++ [e]) sep = strings.Join es sep +:+ sep +:+ e.
Proof.
  induction es as [|a es IH]; [done |]. intros _.
  destruct es as [|b es]; [done |].
  change (strings.Join ((a :: b :: es) ++ [e]) sep)
    with (a +:+ sep +:+ strings.Join ((b :: es) ++ [e]) sep).
  rewrite IH by done.
  change (strings.Join (a :: b :: es) sep)
    with (a +:+ sep +:+ strings.Join (b :: es) sep).
  by rewrite !append_assoc.
Qed.

Lemma SplitSlash_Join (es : list string) :
  es <> [] -> Forall path.kept es ->
  strings.SplitSlash (strings.Join es "/") = es.
Proof.
  induction es as [|a es IH]; [done |]. intros _ [Ha Hes]%Forall_cons.
  destruct es as [|b es]; [apply Ha |].
  change (strings.Join (a :: b :: es) "/")
    with (a +:+ String "/" (strings.Join (b :: es) "/")).
  rewrite SplitSlash_append, IH by done. by rewrite (proj1 Ha).
Qed.

Lemma fold_cleanStep_kept (rooted : bool) (es stack : list string) :
  Forall path.kept es ->
  fold_left (path.cleanStep rooted) es stack = rev es ++ stack.
Proof.
  intros H. revert stack. induction H as [|e es [_ He] _ IH]; intros stack; [done |].
  cbn [fold_left rev]. by rewrite He, IH, <- app_assoc.
Qed.

Lemma Clean_rooted (s : string) :
  path.Clean (String "/" s)
  = "/" +:+ strings.Join
              (rev (fold_left (path.cleanStep true) (strings.SplitSlash s) [])) "/".
Proof. done. Qed.

Lemma cleanStep_empty (rooted : bool) (stack : list string) :
  path.cleanStep rooted stack "" = stack.
Proof. done. Qed.

(** Cleaning a rooted path with the elements [es], once the empty
    elements are left out, gives the absolute path of [es]. *)
Lemma Clean_abs (es : list string) (s : string) :
  fold_left (path.cleanStep true) (strings.SplitSlash s) [] = rev es ->
  path.Clean (String "/" s) = path.abs es.
Proof.
  intros Hs. rewrite Clean_rooted, Hs. by rewrite rev_involutive.
Qed.

Lemma kept_lastChar (e : string) :
  path.kept e -> strings.lastChar e <> Some "/"%char.
Proof.
  intros [Hsplit _] Hlast.
  assert (Hs : exists s, e = s +:+ String "/" "").
  { clear Hsplit. induction e as [|c e IH]; [discriminate |].
    destruct e as [|c' e].
    - injection Hlast as ->. by exists "".
    - destruct IH as [s ->]; [done |]. by exists (String c s). }
  destruct Hs as [s ->]. rewrite SplitSlash_append in Hsplit.
  destruct (SplitSlash_cons s) as (h & t & E). rewrite E in Hsplit.
  destruct t; discriminate.
Qed.

Lemma lastChar_None (e : string) : strings.lastChar e = None -> e = "".
Proof.
  induction e as [|c e IH]; [done |]. destruct e as [|c' e]; [done |].
  intros H. by specialize (IH H).
Qed.

Lemma abs_lastChar (es : list string) :
  es <> [] -> Forall path.kept es -> strings.lastChar (path.abs es) <> Some "/"%char.
Proof.
  intros Hne Hes. destruct (exists_last Hne) as (es' & e & ->).
  apply Forall_app in Hes as [_ [He _]%Forall_cons].
  pose proof (kept_lastChar e He) as Hl.
  destruct (strings.lastChar e) as [c|] eqn:Ec.
  - unfold path.abs. rewrite (lastChar_append _ _ c); [done |].
    by apply lastChar_Join_snoc.
  - apply lastChar_None in Ec as ->. destruct He as [_ He].
    specialize (He true []). discriminate.
Qed.

Lemma joinPaths_no_slash (a rel : string) :
  rel <> "" -> strings.lastChar rel <> Some "/"%char ->
  gin.joinPaths a rel = path.Join a rel.
Proof.
  intros Hne Hl. unfold gin.joinPaths.
  destruct (String.eqb_spec rel "") as [|_]; [done |].
  by rewrite bool_decide_eq_false_2.
Qed.

Lemma abs_ne (es : list string) : path.abs es <> "".
Proof. done. Qed.

(** A router group at a clean absolute prefix has that prefix as its
    base path. *)
Lemma Group_abs (es : list string) :
  es <> [] -> Forall path.kept es ->
  gin.Group gin.rootGroup (path.abs es) = path.abs es.
Proof.
  intros Hne Hes. unfold gin.Group.
  rewrite joinPaths_no_slash by (by apply abs_ne || by apply abs_lastChar).
  apply Clean_abs.
  change ("/" +:+ path.abs es)
    with (String "/" (String "/" (strings.Join es "/"))).
  cbn [strings.SplitSlash]. rewrite ?Ascii.eqb_refl, SplitSlash_Join by done.
  cbn [fold_left]. rewrite !cleanStep_empty, fold_cleanStep_kept by done.
  apply app_nil_r.
Qed.

(** Under a clean absolute prefix [/e1/.../en] the two routes of [Start]
    are the prefix followed by [/version] and by [/hello]; under the
    empty prefix they are [/version] and [/hello]. *)
Lemma routes_under_prefix (es : list string) :
  es <> [] -> Forall path.kept es ->
  app.versionPath (path.abs es) = path.abs es +:+ "/version"
  /\ app.helloPath (path.abs es) = path.abs es +:+ "/hello".
Proof.
  intros Hne Hes. split.
  - unfold app.versionPath.
    assert (Hl : strings.lastChar (path.abs es +:+ "/version") = Some "n"%char).
    { by apply lastChar_append. }
    rewrite joinPaths_no_slash; [| by intros E; rewrite E in Hl | by rewrite Hl].
    unfold path.Join, gin.rootGroup. cbn [String.eqb Ascii.eqb Bool.eqb].
    destruct (String.eqb_spec (path.abs es +:+ "/version") "") as [E|_];
      [by rewrite E in Hl |].
    transitivity (path.abs (es ++ ["version"])).
    2: { unfold path.abs. by rewrite Join_snoc, !append_assoc. }
    apply Clean_abs.
    change ("/" +:+ path.abs es +:+ "/version")
      with (String "/" (String "/" (strings.Join es "/" +:+ String "/" "version"))).
    cbn [strings.SplitSlash]. rewrite ?Ascii.eqb_refl.
    rewrite SplitSlash_append, SplitSlash_Join by done.
    cbn [fold_left]. rewrite !cleanStep_empty, fold_cleanStep_kept; [apply app_nil_r |].
    apply Forall_app. split; [done |]. apply Forall_singleton, kept_version.
  - unfold app.helloPath. rewrite Group_abs by done.
    rewrite joinPaths_no_slash by done.
    unfold path.Join. cbn [String.eqb].
    transitivity (path.abs (es ++ ["hello"])).
    2: { unfold path.abs. by rewrite Join_snoc, !append_assoc. }
    apply Clean_abs.
    change (fold_left (path.cleanStep true)
              (strings.SplitSlash
                 (strings.Join es "/" +:+ String "/" (String "/" "hello"))) []
            = rev (es ++ ["hello"])).
    rewrite SplitSlash_append, (SplitSlash_Join es) by done.
    rewrite fold_left_app, (fold_cleanStep_kept _ es) by done.
    change (strings.SplitSlash (String "/" "hello")) with [""; "hello"].
    cbn [fold_left]. rewrite cleanStep_empty, (proj2 kept_hello).
    by rewrite app_nil_r, rev_app_distr.
Qed.

Lemma routes_without_prefix :
  app.versionPath "" = "/version" /\ app.helloPath "" = "/hello".
Proof. done. Qed.

Lemma routes_at (basePath : string) :
  app.cleanPrefix basePath ->
  app.versionPath basePath = basePath +:+ "/version"
  /\ app.helloPath basePath = basePath +:+ "/hello".
Proof.
  intros [->|(es & Hne & Hes & ->)].
  - apply routes_without_prefix.
  - by apply routes_under_prefix.
Qed.

(** ** The process monad *)

(** Membership in an explicit list of events, by cases. *)
Ltac event_cases H :=
  apply list_elem_of_In in H; cbn [In app] in H;
  intuition (try discriminate; try congruence).

Ltac event_here :=
  apply list_elem_of_In; cbn [In app]; tauto.

Lemma bind_Done {A B} (tr : list Event) (a : A) (f : A -> Proc B) :
  (tr, Done a) ≫= f = (tr ++ trace (f a), outcome (f a)).
Proof. done. Qed.

Lemma bind_mret {A B} (a : A) (f : A -> Proc B) : mret a ≫= f = f a.
Proof. unfold mret, Proc_ret, mbind, Proc_bind. cbn. by destruct (f a). Qed.

Lemma bind_Panicked {A B} (tr : list Event) (err : error) (f : A -> Proc B) :
  (tr, Panicked err) ≫= f = (tr, Panicked err).
Proof. done. Qed.

(** ** [Start], one run at a time *)

Section StartFacts.

Variable ParseDuration : string -> option time.Duration.
Variable httpInfos : list (envconfig.varInfo ginserver.Config).

Abbreviation Start := (app.Start ParseDuration httpInfos).
Abbreviation gatherInfo := (app.gatherInfo ParseDuration httpInfos).

(** A configuration error is the panic of [Start], and its only effect. *)
Lemma Start_config_error (w : World) (err : error) :
  envconfig.Process (Environ w) gatherInfo app.zero = inl err ->
  Start w = ([], Panicked err).
Proof.
  intros E. unfold app.Start, envconfig.MustProcess. by rewrite E.
Qed.

Lemma GET_version (w : World) (basePath : string) :
  app.GET w gin.New gin.rootGroup (basePath +:+ "/version") (app.versionHandler w)
  = if RefusesRoute w [] (app.versionPath basePath)
    then ([], Panicked (RouteRefused (app.versionPath basePath)))
    else ([Handle "GET" (app.versionPath basePath)],
          Done [gin.mkRoute "GET" (app.versionPath basePath)
                  (app.versionHandler w)]).
Proof.
  unfold app.GET, gin.GET. fold (app.versionPath basePath).
  cbn [existsb gin.New fmap list_fmap].
  by destruct (RefusesRoute w [] (app.versionPath basePath)).
Qed.

Lemma GET_hello (w : World) (basePath : string) :
  app.GET w [gin.mkRoute "GET" (app.versionPath basePath) (app.versionHandler w)]
    (gin.Group gin.rootGroup basePath) "/hello" app.helloHandler
  = if RefusesRoute w [app.versionPath basePath] (app.helloPath basePath)
    then ([], Panicked (RouteRefused (app.helloPath basePath)))
    else ([Handle "GET" (app.helloPath basePath)], Done (Run.router w basePath)).
Proof.
  unfold app.GET, gin.GET. fold (app.helloPath basePath).
  cbn [existsb fmap list_fmap gin.routePath].
  assert (gin.matches "GET" (app.helloPath basePath)
            (gin.mkRoute "GET" (app.versionPath basePath) (app.versionHandler w))
          = false) as ->.
  { unfold gin.matches. cbn [gin.routeMethod gin.routePath].
    apply andb_false_intro2, String.eqb_neq, versionPath_ne_helloPath. }
  cbn [orb].
  by destruct (RefusesRoute w [app.versionPath basePath] (app.helloPath basePath)).
Qed.

Lemma receive_quit (w : World) :
  signal.receive w [SIGINT; SIGTERM]
  = match Delivered w with
    | Some sig => ([Received sig], Done sig)
    | None => ([], Blocked)
    end.
Proof.
  unfold signal.receive. destruct (Delivered w) as [sig|]; [|done].
  rewrite bool_decide_eq_true_2; [done |]. destruct sig; event_here.
Qed.

(** With a valid configuration and routes that gin accepts [Start]
    registers its routes, starts both listeners and waits; a signal
    makes it stop the server and return nil. *)
Lemma Start_run (w : World) (config : app.Config) :
  envconfig.Process (Environ w) gatherInfo app.zero = inr config ->
  Run.accepted w (ginserver.Prefix (app.HTTP config)) = true ->
  Start w =
    match Delivered w with
    | Some sig => (Run.startup w config ++ Run.shutdown config sig, Done None)
    | None => (Run.startup w config, Blocked)
    end.
Proof.
  intros E [Hv%negb_true_iff Hh%negb_true_iff]%andb_true_iff.
  unfold app.Start, envconfig.MustProcess. rewrite E.
  rewrite bind_mret.
  cbn [ginserver.InitGin].
  rewrite GET_version, Hv, bind_Done. cbn [trace outcome fst snd].
  rewrite GET_hello, Hh, bind_Done. cbn [trace outcome fst snd].
  clear E Hv Hh. by destruct w as [env ver [[]|] stop rules].
Qed.

(** When gin refuses a route, registering it is the panic of [Start]. *)
Lemma Start_refused (w : World) (config : app.Config) :
  envconfig.Process (Environ w) gatherInfo app.zero = inr config ->
  Run.accepted w (ginserver.Prefix (app.HTTP config)) = false ->
  Start w = Run.refused w (ginserver.Prefix (app.HTTP config)).
Proof.
  intros E Hr. unfold Run.accepted in Hr. unfold Run.refused.
  unfold app.Start, envconfig.MustProcess. rewrite E.
  rewrite bind_mret.
  cbn [ginserver.InitGin].
  rewrite GET_version.
  destruct (RefusesRoute w [] (app.versionPath _)); [done |].
  rewrite bind_Done. cbn [trace outcome fst snd].
  rewrite GET_hello.
  destruct (RefusesRoute w [app.versionPath _] (app.helloPath _)); [done |].
  discriminate.
Qed.

(** The three ways of a run of [Start]. *)
Lemma Start_cases (w : World) :
  (exists err,
     envconfig.Process (Environ w) gatherInfo app.zero = inl err
     /\ Start w = ([], Panicked err))
  \/ (exists config,
        envconfig.Process (Environ w) gatherInfo app.zero = inr config
        /\ Run.accepted w (ginserver.Prefix (app.HTTP config)) = false
        /\ Start w = Run.refused w (ginserver.Prefix (app.HTTP config)))
  \/ (exists config,
        envconfig.Process (Environ w) gatherInfo app.zero = inr config
        /\ Run.accepted w (ginserver.Prefix (app.HTTP config)) = true
        /\ Start w =
           match Delivered w with
           | Some sig => (Run.startup w config ++ Run.shutdown config sig, Done None)
           | None => (Run.startup w config, Blocked)
           end).
Proof.
  destruct (envconfig.Process (Environ w) gatherInfo app.zero)
    as [err|config] eqn:E.
  - left. exists err. split; [done |]. by apply Start_config_error.
  - destruct (Run.accepted w (ginserver.Prefix (app.HTTP config))) eqn:Ha.
    + right. right. exists config. split_and!; [done.. |]. by apply Start_run.
    + right. left. exists config. split_and!; [done.. |]. by apply Start_refused.
Qed.

(** A run that has an event other than the registration of the route
    of the version is a run with a configuration and with routes that
    gin accepts. *)
Lemma Start_reached (w : World) (ev : Event) :
  ev ∈ trace (Start w) ->
  (forall path, ev <> Handle "GET" path) ->
  exists config,
    envconfig.Process (Environ w) gatherInfo app.zero = inr config
    /\ Run.accepted w (ginserver.Prefix (app.HTTP config)) = true
    /\ Start w =
       match Delivered w with
       | Some sig => (Run.startup w config ++ Run.shutdown config sig, Done None)
       | None => (Run.startup w config, Blocked)
       end.
Proof.
  intros Hin Hev.
  destruct (Start_cases w) as [(err & _ & HS)|[(config & _ & _ & HS)|H]];
    [| | done].
  - rewrite HS in Hin. by apply elem_of_nil in Hin.
  - rewrite HS in Hin. unfold Run.refused in Hin.
    destruct (RefusesRoute w [] _); cbn [trace fst] in Hin.
    + by apply elem_of_nil in Hin.
    + apply list_elem_of_singleton in Hin. by destruct (Hev _ Hin).
Qed.

(** ** Configuration errors *)

Lemma Process_bad {S} (env : envconfig.Environ) (infos : list (envconfig.varInfo S))
  (info : envconfig.varInfo S) (spec : S) :
info ∈ infos ->
envconfig.missing env info \/ envconfig.invalid env info ->
exists err, envconfig.Process env infos spec = inl err.
Proof.
intros Hin Hbad. revert spec.
induction infos as [|i rest IH]; intros spec; [by apply elem_of_nil in Hin |].
cbn [envconfig.Process].
apply elem_of_cons in Hin as [->|Hin].
- destruct Hbad as [[Hreq Hval]|(v & Hval & Hconv)]; unfold envconfig.value in Hval.
  + destruct (envconfig.lookup env i); [discriminate |].
    destruct (String.eqb (envconfig.Default i) ""); [|discriminate].
    rewrite bool_decide_eq_true_2 by done. cbn [andb]. rewrite Hreq. eauto.
  + destruct (envconfig.lookup env i) as [v'|].
    * injection Hval as ->. rewrite bool_decide_eq_false_2 by done.
      cbn [andb]. rewrite Hconv. eauto.
    * rewrite bool_decide_eq_true_2 by done. cbn [andb].
      destruct (String.eqb (envconfig.Default i) ""); [discriminate |].
      injection Hval as ->. rewrite Hconv. eauto.
- destruct (_ && _).
  + destruct (envconfig.Required i); eauto.
  + destruct (envconfig.processField i _); eauto.
Qed.

Lemma ListenHTTP_router (w : World) (config : app.Config) (port : Z)
  (router : gin.Engine) :
envconfig.Process (Environ w) gatherInfo app.zero = inr config ->
ListenHTTP port router ∈ trace (Start w) ->
router = Run.router w (ginserver.Prefix (app.HTTP config)).
Proof.
intros E Hin.
destruct (Start_reached _ _ Hin) as (config' & E' & _ & HS); [done |].
rewrite E in E'. injection E' as <-.
rewrite HS in Hin. unfold Run.startup, Run.shutdown in Hin.
destruct (Delivered w); cbn [trace fst] in Hin; event_cases Hin.
Qed.

(** C1: every GET request for the hello route of the running server,
    whatever its query string, headers and body, is answered with
    status 200 and the JSON object with the single member
    [message = Hello, World!].  The route is gin's join of the prefix
    and [/hello]; for a clean prefix that is the prefix followed by
    [/hello]. *)
Theorem hello_always_200 (w : World) (config : app.Config) (port : Z)
    (router : gin.Engine) (req : gin.Request) :
  envconfig.Process (Environ w) gatherInfo app.zero = inr config ->
  ListenHTTP port router ∈ trace (Start w) ->
  gin.Method req = "GET" ->
  gin.URLPath req = app.helloPath (ginserver.Prefix (app.HTTP config))
  \/ (app.cleanPrefix (ginserver.Prefix (app.HTTP config))
      /\ gin.URLPath req = ginserver.Prefix (app.HTTP config) +:+ "/hello") ->
  gin.ServeHTTP router req = Some (Run.ok {[ "message" := "Hello, World!" ]}).
Proof.
  intros E Hin Hm Hp.
  assert (Hp' : gin.URLPath req
                = app.helloPath (ginserver.Prefix (app.HTTP config))).
  { destruct Hp as [Hp|[Hc Hp]]; [done |].
    by rewrite (proj2 (routes_at _ Hc)). }
  rewrite (ListenHTTP_router _ _ _ _ E Hin).
  unfold gin.ServeHTTP, Run.router, gin.matches. rewrite Hm, Hp'.
  cbn [find gin.routeMethod gin.routePath].
  destruct (String.eqb_spec (app.versionPath (ginserver.Prefix (app.HTTP config)))
              (app.helloPath (ginserver.Prefix (app.HTTP config)))) as [Eq|_];
    [by apply versionPath_ne_helloPath in Eq |].
  rewrite andb_false_r. by rewrite !String.eqb_refl.
Qed.

(** C2: every GET request for the version route of the running server
    is answered with status 200 and the JSON object with the single
    member [version = v], where [v] is the version string of the build;
    [v] is [unknown] when the build set none.  The route is gin's join
    of the root and the prefix followed by [/version]; for a clean
    prefix that is the prefix followed by [/version]. *)
Theorem version_always_200 (w : World) (config : app.Config) (port : Z)
    (router : gin.Engine) (req : gin.Request) :
  envconfig.Process (Environ w) gatherInfo app.zero = inr config ->
  ListenHTTP port router ∈ trace (Start w) ->
  gin.Method req = "GET" ->
  gin.URLPath req = app.versionPath (ginserver.Prefix (app.HTTP config))
  \/ (app.cleanPrefix (ginserver.Prefix (app.HTTP config))
      /\ gin.URLPath req = ginserver.Prefix (app.HTTP config) +:+ "/version") ->
  gin.ServeHTTP router req = Some (Run.ok {[ "version" := app.Version w ]})
  /\ (forall v, LinkedVersion w = Some v -> app.Version w = v)
  /\ (LinkedVersion w = None -> app.Version w = "unknown").
Proof.
  intros E Hin Hm Hp.
  assert (Hp' : gin.URLPath req
                = app.versionPath (ginserver.Prefix (app.HTTP config))).
  { destruct Hp as [Hp|[Hc Hp]]; [done |].
    by rewrite (proj1 (routes_at _ Hc)). }
  split.
  - rewrite (ListenHTTP_router _ _ _ _ E Hin).
    unfold gin.ServeHTTP, Run.router, gin.matches. rewrite Hm, Hp'.
    cbn [find gin.routeMethod gin.routePath]. by rewrite !String.eqb_refl.
  - unfold app.Version. split; [intros v -> | intros ->]; done.
Qed.

(** C9: once a signal has been received, [Start] calls the HTTP stop
  function with a context that expires after the configured shutdown
  timeout, and returns nil whatever the stop function returns. *)
Theorem Start_returns_nil_after_stop (env : gmap string string)
  (ver : option string) (rules : gin.WildcardRules) (config : app.Config)
  (sig : Signal) (stop : option error) :
envconfig.Process env gatherInfo app.zero = inr config ->
Received sig ∈ trace (Start (mkWorld env ver (Some sig) stop rules)) ->
Start (mkWorld env ver (Some sig) stop rules)
= (Run.startup (mkWorld env ver (Some sig) stop rules) config
     ++ [ Received sig;
          LogInfo "Shutting down server...";
          StopHTTP (Some (app.ShutdownTimeout config)) ],
   Done None).
Proof.
intros E Hin.
destruct (Start_reached _ _ Hin) as (config' & E' & _ & HS); [done |].
cbn [Environ] in E'. rewrite E in E'. injection E' as <-. exact HS.
Qed.

(** C10: in every run of [Start], whatever the environment and the
  configuration, the telemetry listener is started on port 3030 and
  on no other port: every run that gets to subscribe to the signals
  has started it there. *)
Theorem telemetry_port_3030 (w : World) :
(forall port, ListenTelemetry port ∈ trace (Start w) -> port = 3030)
/\ (forall sigs,
      Notify sigs ∈ trace (Start w) ->
      ListenTelemetry 3030 ∈ trace (Start w)).
Proof.
split.
- intros port Hin.
  destruct (Start_reached _ _ Hin) as (config & _ & _ & HS); [done |].
  rewrite HS in Hin. unfold Run.startup, Run.shutdown in Hin.
  destruct (Delivered w); cbn [trace fst] in Hin; event_cases Hin.
- intros sigs Hin.
  destruct (Start_reached _ _ Hin) as (config & _ & _ & HS); [done |].
  rewrite HS. unfold Run.startup.
  destruct (Delivered w); cbn [trace fst]; event_here.
Qed.

End StartFacts.

(** ** The order of migrations *)

Lemma inOrder_le (a b : migrate.Migration) :
  migrate.inOrder a b <-> (migrate.Name a ≤ migrate.Name b)%string.
Proof.
  unfold migrate.inOrder, migrate.less, String.le, String.ltb, String.leb.
  rewrite (String.compare_antisym (migrate.Name b) (migrate.Name a)).
  destruct (migrate.Name a ?= migrate.Name b)%string; cbn; naive_solver.
Qed.

#[local] Instance inOrder_total : Total migrate.inOrder.
Proof.
  intros a b. rewrite !inOrder_le. apply String.le_total.
Qed.

#[local] Instance inOrder_trans : Transitive migrate.inOrder.
Proof.
  intros a b c. rewrite !inOrder_le. apply (transitivity (R := String.le)).
Qed.

Lemma sortAsc_Permutation (ms : migrate.MigrationSlice) :
  migrate.sortAsc ms ≡ₚ ms.
Proof. apply merge_sort_Permutation. Qed.

Lemma sortAsc_sorted (ms : migrate.MigrationSlice) :
  StronglySorted migrate.inOrder (migrate.sortAsc ms).
Proof. apply (StronglySorted_merge_sort _). Qed.

(** ** Names that are timestamps *)

Lemma decimal_acc (acc : Z) (s : string) :
  strings.decimal acc s
  = acc * 10 ^ Z.of_nat (String.length s) + strings.decimal 0 s.
Proof.
  revert acc. induction s as [|c s IH]; intros acc; cbn [strings.decimal String.length].
  - lia.
  - rewrite IH, (IH (10 * 0 + _)). rewrite Nat2Z.inj_succ, Z.pow_succ_r by lia. ring.
Qed.

Lemma isDigit_range (c : ascii) :
  strings.isDigit c = true -> 0 <= Z.of_N (N_of_ascii c) - 48 <= 9.
Proof.
  unfold strings.isDigit. intros [H1%N.leb_le H2%N.leb_le]%andb_true_iff. lia.
Qed.

Lemma decimal_bound (s : string) :
  strings.allDigits s = true ->
  0 <= strings.decimal 0 s < 10 ^ Z.of_nat (String.length s).
Proof.
  induction s as [|c s IH]; cbn [strings.allDigits strings.decimal String.length].
  - intros _. cbn. lia.
  - intros [Hc Hs]%andb_true_iff. apply isDigit_range in Hc. specialize (IH Hs).
    rewrite decimal_acc, Nat2Z.inj_succ, Z.pow_succ_r by lia. nia.
Qed.

Lemma leading_digit_lt (d1 d2 v1 v2 p : Z) :
  d1 < d2 -> 0 <= v1 < p -> 0 <= v2 < p -> d1 * p + v1 < d2 * p + v2.
Proof. nia. Qed.

(** On strings of digits of one length, the order of the strings is the
    order of the numbers. *)
Lemma compare_decimal (s1 s2 : string) :
  String.length s1 = String.length s2 ->
  strings.allDigits s1 = true -> strings.allDigits s2 = true ->
  (s1 ?= s2)%string = (strings.decimal 0 s1 ?= strings.decimal 0 s2).
Proof.
  revert s2. induction s1 as [|c1 s1 IH]; intros [|c2 s2] Hlen H1 H2;
    try discriminate; [done |].
  cbn [strings.allDigits] in H1, H2.
  apply andb_true_iff in H1 as [Hc1 H1]. apply andb_true_iff in H2 as [Hc2 H2].
  injection Hlen as Hlen.
  pose proof (decimal_bound _ H1) as B1. pose proof (decimal_bound _ H2) as B2.
  apply isDigit_range in Hc1, Hc2.
  cbn [String.compare strings.decimal].
  rewrite (decimal_acc _ s1), (decimal_acc _ s2). rewrite <- Hlen in B2 |- *.
  unfold Ascii.compare.
  destruct (N.compare_spec (N_of_ascii c1) (N_of_ascii c2)) as [E|L|G].
  - rewrite (IH s2 Hlen H1 H2), E. by rewrite Z.add_compare_mono_l.
  - symmetry. apply Z.compare_lt_iff, leading_digit_lt; lia.
  - symmetry. apply Z.compare_gt_iff, leading_digit_lt; lia.
Qed.

Lemma le_timestamp (n1 n2 : string) :
  migrate.isTimestamp n1 -> migrate.isTimestamp n2 ->
  (n1 ≤ n2)%string <-> migrate.timestamp n1 <= migrate.timestamp n2.
Proof.
  intros [L1 D1] [L2 D2]. unfold String.le, String.leb, migrate.timestamp.
  rewrite (compare_decimal n1 n2) by congruence.
  destruct (Z.compare_spec (strings.decimal 0 n1) (strings.decimal 0 n2));
    cbn; intuition lia.
Qed.

(** ** Discovery *)

Import Discovery.

Lemma getOrCreate_alter (name : string) (g : migrate.Migration -> migrate.Migration)
    (ms : migrate.Migrations) :
  alter g (migrate.getOrCreateMigration name ms).1
          (migrate.getOrCreateMigration name ms).2
  = upsert name g ms.
Proof.
  unfold migrate.getOrCreateMigration.
  induction ms as [|m rest IH]; [done |].
  cbn [list_find upsert]. destruct (decide (migrate.Name m = name)); [done |].
  destruct (list_find _ rest) as [[i x]|]; cbn in IH |- *; by rewrite IH.
Qed.

(** One file: a file that is no migration file is skipped, a migration
    file with a malformed name is an error, and any other sets the
    script of its direction in the migration of its name. *)
Lemma discoverFile_spec (ms : migrate.Migrations) (f : string) :
  (strings.HasSuffix f ".up.sql" = false
   /\ strings.HasSuffix f ".down.sql" = false
   /\ migrate.discoverFile ms f = (ms, None))
  \/ (exists err, migrate.extractMigrationName f = inl err
      /\ migrate.discoverFile ms f = (ms, Some err))
  \/ (exists d name comment,
        strings.HasSuffix f (suffix d) = true
        /\ migrate.extractMigrationName f = inr (name, comment)
        /\ migrate.discoverFile ms f
           = (upsert name (setScript d f ∘ migrate.setComment comment) ms, None)).
Proof.
  unfold migrate.discoverFile.
  destruct (strings.HasSuffix f ".up.sql") eqn:Hup;
    [|destruct (strings.HasSuffix f ".down.sql") eqn:Hdown]; cbn [negb andb];
    [| |by left].
  all: destruct (migrate.extractMigrationName f) as [err|[name comment]] eqn:Hx;
    [right; left; by eauto |].
  all: right; right.
  - exists up, name, comment. split; [done |]. split; [done |].
    rewrite <- getOrCreate_alter. destruct (migrate.getOrCreateMigration name ms).
    cbn [fst snd]. f_equal. apply list_alter_alter_eq.
  - exists down, name, comment. split; [done |]. split; [done |].
    rewrite <- getOrCreate_alter. destruct (migrate.getOrCreateMigration name ms).
    cbn [fst snd]. f_equal. apply list_alter_alter_eq.
Qed.

Section Upsert.

Variable name : string.
Variable g : migrate.Migration -> migrate.Migration.
Hypothesis g_Name : forall m, migrate.Name (g m) = migrate.Name m.

Lemma upsert_names (ms : migrate.Migrations) :
  migrate.Name <$> upsert name g ms
  = if decide (name ∈ migrate.Name <$> ms) then migrate.Name <$> ms
    else (migrate.Name <$> ms) ++ [name].
Proof.
  induction ms as [|m rest IH]; cbn [upsert fmap list_fmap].
  - rewrite decide_False by apply not_elem_of_nil. by rewrite g_Name.
  - destruct (decide (migrate.Name m = name)) as [E|NE].
    + rewrite decide_True by (rewrite <- E; apply list_elem_of_here).
      cbn [fmap list_fmap]. by rewrite g_Name.
    + cbn [fmap list_fmap]. rewrite IH.
      destruct (decide (name ∈ migrate.Name <$> rest)) as [I|NI].
      * by rewrite decide_True by (by apply list_elem_of_further).
      * rewrite decide_False; [done |].
        intros [?|?]%elem_of_cons; congruence.
Qed.

Lemma upsert_names_incl (ms : migrate.Migrations) (n : string) :
  n ∈ migrate.Name <$> ms -> n ∈ migrate.Name <$> upsert name g ms.
Proof.
  rewrite upsert_names. case_decide; [done |].
  intros ?. apply elem_of_app. by left.
Qed.

Lemma upsert_names_new (ms : migrate.Migrations) :
  name ∈ migrate.Name <$> upsert name g ms.
Proof.
  rewrite upsert_names. case_decide; [done |].
  apply elem_of_app. right. apply list_elem_of_here.
Qed.

Lemma upsert_NoDup (ms : migrate.Migrations) :
  NoDup (migrate.Name <$> ms) -> NoDup (migrate.Name <$> upsert name g ms).
Proof.
  intros ND. rewrite upsert_names. case_decide; [done |].
  apply NoDup_app. split; [done |]. split; [|apply NoDup_singleton].
  intros x Hx ->%list_elem_of_singleton. done.
Qed.

End Upsert.

Lemma setScript_Name (d : direction) (f comment : string) (m : migrate.Migration) :
  migrate.Name ((setScript d f ∘ migrate.setComment comment) m) = migrate.Name m.
Proof. by destruct d. Qed.

Lemma script_setScript (d d' : direction) (f comment : string)
    (m : migrate.Migration) :
  script d' ((setScript d f ∘ migrate.setComment comment) m)
  = if decide (d = d') then Some f else script d' m.
Proof. by destruct d, d'. Qed.

Lemma upsert_discovered (files : list string) (d : direction)
    (f name comment : string) (ms : migrate.Migrations) :
  f ∈ files ->
  strings.HasSuffix f (suffix d) = true ->
  migrate.extractMigrationName f = inr (name, comment) ->
  Forall (discovered files) ms ->
  Forall (discovered files)
    (upsert name (setScript d f ∘ migrate.setComment comment) ms).
Proof.
  intros Hf Hsuf Hx.
  assert (Hg : forall m,
    migrate.Name m = name ->
    (forall d' f', script d' m = Some f' ->
       f' ∈ files /\ strings.HasSuffix f' (suffix d') = true
       /\ exists c, migrate.extractMigrationName f' = inr (migrate.Name m, c)) ->
    discovered files ((setScript d f ∘ migrate.setComment comment) m)).
  { intros m Hn Hm. split.
    - destruct d; cbn; eauto.
    - intros d' f'. rewrite script_setScript, setScript_Name.
      case_decide as Hd; [|by apply Hm].
      intros [= <-]. subst d'. rewrite Hn. eauto. }
  induction 1 as [|m rest Hm Hrest IH]; cbn [upsert].
  - apply Forall_cons. split; [|done]. apply Hg; [done |].
    intros [] f'; discriminate.
  - destruct (decide (migrate.Name m = name)) as [E|NE].
    + apply Forall_cons. split; [|done]. apply Hg; [done | apply Hm].
    + by apply Forall_cons.
Qed.

(** Discovery keeps names distinct, gives every migration file a
    migration of its name, and leaves every migration as described by
    [discovered]. *)
Lemma walk_spec (all files : list string) (ms m : migrate.Migrations) :
  migrate.walk ms files = (m, None) ->
  files ⊆ all ->
  NoDup (migrate.Name <$> ms) ->
  Forall (discovered all) ms ->
  NoDup (migrate.Name <$> m)
  /\ Forall (discovered all) m
  /\ (forall n, n ∈ migrate.Name <$> ms -> n ∈ migrate.Name <$> m)
  /\ (forall f d, f ∈ files -> strings.HasSuffix f (suffix d) = true ->
       exists name comment,
         migrate.extractMigrationName f = inr (name, comment)
         /\ name ∈ migrate.Name <$> m).
Proof.
  revert ms. induction files as [|f files IH]; intros ms Hw Hsub ND Hd.
  - injection Hw as <-. repeat split; try done.
    intros f d Hf. by apply elem_of_nil in Hf.
  - cbn [migrate.walk] in Hw.
    assert (Hf : f ∈ all) by (apply Hsub, list_elem_of_here).
    assert (Hsub' : files ⊆ all).
    { intros x Hx. by apply Hsub, list_elem_of_further. }
    destruct (discoverFile_spec ms f)
      as [(Hup & Hdown & E)|[(err & Hx & E)|(d & name & comment & Hsuf & Hx & E)]];
      rewrite E in Hw; [|discriminate|].
    + destruct (IH ms Hw Hsub' ND Hd) as (ND' & Hd' & Hincl & Hcov).
      repeat split; try done.
      intros f' d' [->|Hf']%elem_of_cons Hs; [|by eauto].
      destruct d'; cbn in Hs; congruence.
    + pose proof (setScript_Name d f comment) as HN.
      destruct (IH _ Hw Hsub') as (ND' & Hd' & Hincl & Hcov).
      { by apply upsert_NoDup. }
      { by apply upsert_discovered. }
      repeat split; try done.
      * intros n Hn. by apply Hincl, upsert_names_incl.
      * intros f' d' [->|Hf']%elem_of_cons Hs; [|by eauto].
        exists name, comment. split; [done |]. by apply Hincl, upsert_names_new.
Qed.

Lemma Discover_spec (fsys : migrate.FS) (m : migrate.Migrations) :
  migrate.Discover migrate.NewMigrations fsys = (m, None) ->
  NoDup (migrate.Name <$> m)
  /\ Forall (discovered (fst <$> fsys)) m
  /\ (forall f d, f ∈ fst <$> fsys -> strings.HasSuffix f (suffix d) = true ->
       exists name comment,
         migrate.extractMigrationName f = inr (name, comment)
         /\ name ∈ migrate.Name <$> m).
Proof.
  intros E.
  destruct (walk_spec (fst <$> fsys) _ _ _ E) as (ND & Hd & _ & Hcov); try done.
  apply NoDup_nil_2.
Qed.

Lemma ReadFile_embedded (fsys : migrate.FS) (f : string) :
  f ∈ fst <$> fsys -> is_Some (migrate.ReadFile fsys f).
Proof.
  unfold migrate.ReadFile.
  induction fsys as [|[g sql] fsys IH]; cbn [fmap list_fmap find fst].
  - by intros ?%elem_of_nil.
  - intros [->|Hf]%elem_of_cons.
    + rewrite String.eqb_refl. by eexists.
    + destruct (String.eqb g f); [by eexists | by apply IH].
Qed.

(** A migration file whose name is malformed makes discovery fail. *)
Lemma walk_malformed (files : list string) (ms : migrate.Migrations)
    (f : string) (d : direction) (err : error) :
  f ∈ files ->
  strings.HasSuffix f (suffix d) = true ->
  migrate.extractMigrationName f = inl err ->
  exists err', (migrate.walk ms files).2 = Some err'.
Proof.
  intros Hf Hs Hx. revert ms.
  induction files as [|g files IH]; intros ms; [by apply elem_of_nil in Hf |].
  cbn [migrate.walk].
  destruct (discoverFile_spec ms g)
    as [(Hup & Hdown & E)|[(e & Hg & E)|(d' & name & comment & _ & Hg & E)]];
    rewrite E; [| by eauto |].
  - apply elem_of_cons in Hf as [->|Hf]; [|by apply IH].
    destruct d; cbn in Hs; congruence.
  - apply elem_of_cons in Hf as [->|Hf]; [congruence | by apply IH].
Qed.

Lemma Discover_malformed (fsys : migrate.FS) (f : string) (d : direction)
    (err : error) :
  f ∈ fst <$> fsys ->
  strings.HasSuffix f (suffix d) = true ->
  migrate.extractMigrationName f = inl err ->
  exists err', (migrate.Discover migrate.NewMigrations fsys).2 = Some err'.
Proof. apply walk_malformed. Qed.

(** ** Sorting *)




Lemma SortedCalls_replicate (n : nat) (m : migrate.Migrations) :
  migrate.SortedCalls n m = (replicate n (migrate.sortAsc m), m).
Proof.
  induction n as [|n IH]; [done |].
  cbn [migrate.SortedCalls migrate.Sorted replicate]. by rewrite IH.
Qed.

(** With distinct names the sorted slice does not depend on how
    [sort.Slice] sorts: it is the only sorted arrangement. *)
Lemma sortAsc_unique (m l : migrate.MigrationSlice) :
  NoDup (migrate.Name <$> m) ->
  l ≡ₚ m -> StronglySorted migrate.inOrder l -> l = migrate.sortAsc m.
Proof.
  intros ND Hp Hs.
  apply (StronglySorted_unique_strong migrate.inOrder); [|done|apply sortAsc_sorted|].
  - intros x1 x2 H1 H2 R12 R21.
    apply inOrder_le in R12, R21.
    assert (E : migrate.Name x1 = migrate.Name x2).
    { by apply (anti_symm String.le). }
    rewrite Hp in H1. rewrite sortAsc_Permutation in H2.
    apply list_elem_of_lookup in H1 as [i Hi], H2 as [j Hj].
    assert (i = j) as ->.
    { eapply NoDup_lookup; [exact ND | |]; rewrite list_lookup_fmap.
      - by rewrite Hi.
      - rewrite Hj. cbn. by rewrite E. }
    congruence.
  - by rewrite sortAsc_Permutation.
Qed.

(** ** The migration registry *)

(** C6: after initialisation, any number of calls of [Sorted] leave the
    registry as it was and return equal slices, hence slices of one
    length and one order; the slice is the only sorted arrangement of
    the registry, so it does not depend on how the sort proceeds. *)
Theorem Sorted_calls_agree (fsys : migrate.FS) (m : migrate.Migrations) (n : nat) :
  migrate.Discover migrate.NewMigrations fsys = (m, None) ->
  (migrate.SortedCalls n m).2 = m
  /\ (forall l1 l2,
        l1 ∈ (migrate.SortedCalls n m).1 -> l2 ∈ (migrate.SortedCalls n m).1 ->
        l1 = l2 /\ length l1 = length l2)
  /\ (forall l l',
        l ∈ (migrate.SortedCalls n m).1 ->
        l' ≡ₚ m -> StronglySorted migrate.inOrder l' -> l' = l).
Proof.
  intros E. destruct (Discover_spec _ _ E) as (ND & _ & _).
  rewrite SortedCalls_replicate. cbn [fst snd]. split; [done |]. split.
  - intros l1 l2 [-> _]%elem_of_replicate [-> _]%elem_of_replicate. done.
  - intros l l' [-> _]%elem_of_replicate Hp Hs. by apply sortAsc_unique.
Qed.


(** C8, as claimed, fails: the only migration of the repository has an
    up script and no down script. *)
Lemma init_migration_without_down :
  ~ (forall mig,
       mig ∈ (migrate.Discover migrate.NewMigrations migrations.sqlMigrations).1 ->
       is_Some (migrate.Up mig) /\ is_Some (migrate.Down mig)).
Proof.
  intros H.
  destruct (H (migrate.mkMigration "20251105065350" "init"
                 (Some "20251105065350_init.up.sql") None)) as [_ [f Hf]].
  - vm_compute. apply list_elem_of_here.
  - discriminate.
Qed.

(** C8, amended: every migration in the registry has a script for at
    least one direction; an up script is an embedded file ending in
    [.up.sql], a down script an embedded file ending in [.down.sql],
    each named after the migration, and its SQL text is the content of
    that file. *)
Theorem discovered_migration_scripts (fsys : migrate.FS) (m : migrate.Migrations)
    (mig : migrate.Migration) :
  migrate.Discover migrate.NewMigrations fsys = (m, None) ->
  mig ∈ m ->
  (is_Some (migrate.Up mig) \/ is_Some (migrate.Down mig))
  /\ (forall f, migrate.Up mig = Some f ->
        strings.HasSuffix f ".up.sql" = true
        /\ (exists comment,
              migrate.extractMigrationName f = inr (migrate.Name mig, comment))
        /\ is_Some (migrate.ReadFile fsys f))
  /\ (forall f, migrate.Down mig = Some f ->
        strings.HasSuffix f ".down.sql" = true
        /\ (exists comment,
              migrate.extractMigrationName f = inr (migrate.Name mig, comment))
        /\ is_Some (migrate.ReadFile fsys f)).
Proof.
  intros E Hmig. destruct (Discover_spec _ _ E) as (_ & Hd & _).
  eapply Forall_forall in Hd as [Hsome Hscript]; [|exact Hmig].
  split; [done |].
  split; intros f Hf.
  - destruct (Hscript up f Hf) as (Hin & Hs & Hx).
    auto using ReadFile_embedded.
  - destruct (Hscript down f Hf) as (Hin & Hs & Hx).
    auto using ReadFile_embedded.
Qed.

(** ** The process *)

Section ProcessFacts.

Variable ParseDuration : string -> option time.Duration.
Variable httpInfos : list (envconfig.varInfo ginserver.Config).
Variable postgresCli :
  migrate.Migrations -> World -> list string -> Proc (option error).
Variable cliOther : World -> list string -> Proc (option error).

Abbreviation process :=
  (main.process ParseDuration httpInfos postgresCli cliOther).

Lemma init_error (embedded : migrate.FS) (m : migrate.Migrations) (err : error) :
  migrate.Discover migrate.NewMigrations embedded = (m, Some err) ->
  migrations.init embedded
  = ([LogInfo "Discovering SQL migrations..."], Panicked err).
Proof. intros E. unfold migrations.init. by rewrite E. Qed.

Lemma init_ok (embedded : migrate.FS) (m : migrate.Migrations) :
  migrate.Discover migrate.NewMigrations embedded = (m, None) ->
  migrations.init embedded
  = ([LogInfo "Discovering SQL migrations...";
      LogInfo "SQL migrations discovered successfully"], Done m).
Proof. intros E. unfold migrations.init. by rewrite E. Qed.

(** C3: when discovery over the embedded files returns an error,
    package initialisation panics with it; the process ends there, with
    exit status 2, having registered no route and started no listener. *)
Theorem init_panics_before_serving (embedded : migrate.FS)
    (m : migrate.Migrations) (err : error) (w : World) (args : list string) :
  migrate.Discover migrate.NewMigrations embedded = (m, Some err) ->
  outcome (migrations.init embedded) = Panicked err
  /\ process embedded w args
     = ([LogInfo "Discovering SQL migrations..."], Panicked err)
  /\ ExitStatus (outcome (process embedded w args)) = Some 2
  /\ (forall ev, ev ∈ trace (process embedded w args) -> ~ isServing ev).
Proof.
  intros E. unfold main.process. rewrite (init_error _ _ _ E).
  rewrite bind_Panicked. cbn [outcome trace fst snd ExitStatus].
  repeat split. intros ev Hev. event_cases Hev. by subst ev.
Qed.

(** C4: when a required environment variable is missing, or a variable
    has a value that does not convert, [Start] panics while it
    processes the configuration, before it has done anything else; the
    process started with the arguments [app start] ends with exit
    status 2, having registered no route and started neither the HTTP
    listener nor the telemetry listener. *)
Theorem Start_aborts_on_bad_environment (w : World)
    (info : envconfig.varInfo app.Config) (embedded : migrate.FS)
    (m : migrate.Migrations) (prog : string) :
  info ∈ app.gatherInfo ParseDuration httpInfos ->
  envconfig.missing (Environ w) info \/ envconfig.invalid (Environ w) info ->
  migrate.Discover migrate.NewMigrations embedded = (m, None) ->
  exists err,
    app.Start ParseDuration httpInfos w = ([], Panicked err)
    /\ outcome (process embedded w [prog; "app"; "start"]) = Panicked err
    /\ ExitStatus (outcome (process embedded w [prog; "app"; "start"]))
       = Some 2
    /\ (forall ev,
          ev ∈ trace (process embedded w [prog; "app"; "start"]) ->
          ~ isServing ev).
Proof.
  intros Hin Hbad E.
  destruct (Process_bad _ _ _ app.zero Hin Hbad) as [err Herr].
  exists err. pose proof (Start_config_error _ _ _ _ Herr) as HS.
  split; [done |].
  unfold main.process, main.main, main.Run.
  rewrite (init_ok _ _ E), bind_Done, HS.
  cbn [outcome trace fst snd ExitStatus app].
  repeat split. intros ev Hev. event_cases Hev; by subst ev.
Qed.

End ProcessFacts.

(** ** The configured shutdown timeout *)

Lemma Process_app {S} (env : envconfig.Environ)
    (infos1 infos2 : list (envconfig.varInfo S)) (spec : S) :
  envconfig.Process env (infos1 ++ infos2) spec
  = match envconfig.Process env infos1 spec with
    | inl err => inl err
    | inr spec' => envconfig.Process env infos2 spec'
    end.
Proof.
  revert spec. induction infos1 as [|info infos1 IH]; intros spec; [done |].
  cbn [app envconfig.Process]. destruct (_ && _).
  - by destruct (envconfig.Required info).
  - by destruct (envconfig.processField info _).
Qed.

Section Timeout.

Variable ParseDuration : string -> option time.Duration.
Variable httpInfos : list (envconfig.varInfo ginserver.Config).

(** The shutdown timeout of a loaded configuration is the duration
    written in [SHUTDOWN_TIMEOUT], or that of [20s] when the variable
    is not set. *)
Lemma ShutdownTimeout_configured (env : envconfig.Environ) (config : app.Config) :
  envconfig.Process env (app.gatherInfo ParseDuration httpInfos) app.zero
  = inr config ->
  ParseDuration (default "20s" (env !! "SHUTDOWN_TIMEOUT"))
  = Some (app.ShutdownTimeout config).
Proof.
  unfold app.gatherInfo. rewrite Process_app.
  destruct (envconfig.Process env _ app.zero) as [err|spec]; [discriminate |].
  cbn [envconfig.Process]. unfold envconfig.lookup.
  cbn [app.shutdownTimeoutInfo envconfig.Key envconfig.Alt envconfig.Default
       envconfig.Required envconfig.processField].
  destruct (env !! "SHUTDOWN_TIMEOUT") as [v|] eqn:E; unfold default.
  - rewrite bool_decide_eq_false_2 by done. cbn [andb].
    destruct (ParseDuration v) as [d|] eqn:P; cbn; [|discriminate].
    by intros [= <-].
  - change (String.eqb "SHUTDOWN_TIMEOUT" "") with false. cbn iota.
    rewrite bool_decide_eq_true_2 by done.
    change (String.eqb "20s" "") with false. cbn [andb].
    destruct (ParseDuration "20s") as [d|] eqn:P; cbn; [|discriminate].
    by intros [= <-].
Qed.

End Timeout.

(** * Further properties *)

(** ** More on [envconfig.Process] *)

Lemma Process_error_bad {S} (env : envconfig.Environ)
    (infos : list (envconfig.varInfo S)) (spec : S) (err : error) :
  envconfig.Process env infos spec = inl err ->
  exists info,
    info ∈ infos /\ (envconfig.missing env info \/ envconfig.invalid env info).
Proof.
  revert spec. induction infos as [|i rest IH]; intros spec; [discriminate |].
  cbn [envconfig.Process]. unfold envconfig.missing, envconfig.invalid, envconfig.value.
  assert (Hrest : forall spec',
    envconfig.Process env rest spec' = inl err ->
    exists info, info ∈ i :: rest /\
      (envconfig.missing env info \/ envconfig.invalid env info)).
  { intros spec' H. destruct (IH _ H) as (info & Hin & Hbad).
    exists info. split; [by apply list_elem_of_further | done]. }
  destruct (envconfig.lookup env i) as [v|] eqn:Hl.
  - rewrite bool_decide_eq_false_2 by done. cbn [andb].
    destruct (envconfig.processField i v) as [store|] eqn:Hp; [by apply Hrest |].
    intros _. exists i. split; [apply list_elem_of_here |]. right.
    exists v. unfold envconfig.value. by rewrite Hl.
  - rewrite bool_decide_eq_true_2 by done. cbn [andb].
    destruct (String.eqb (envconfig.Default i) "") eqn:Hd.
    + destruct (envconfig.Required i) eqn:Hr; [|by apply Hrest].
      intros _. exists i. split; [apply list_elem_of_here |]. left.
      unfold envconfig.missing, envconfig.value. by rewrite Hl, Hd.
    + destruct (envconfig.processField i (envconfig.Default i)) as [store|] eqn:Hp;
        [by apply Hrest |].
      intros _. exists i. split; [apply list_elem_of_here |]. right.
      exists (envconfig.Default i). unfold envconfig.value. by rewrite Hl, Hd.
Qed.

(** Two environments that give every gathered field the same text give
    the same result. *)
Lemma Process_agree {S} (env env' : envconfig.Environ)
    (infos : list (envconfig.varInfo S)) (spec : S) :
  (forall info, info ∈ infos -> envconfig.lookup env' info = envconfig.lookup env info) ->
  envconfig.Process env' infos spec = envconfig.Process env infos spec.
Proof.
  revert spec. induction infos as [|i rest IH]; intros spec H; [done |].
  cbn [envconfig.Process]. rewrite (H i) by apply list_elem_of_here.
  assert (Hrest : forall spec',
    envconfig.Process env' rest spec' = envconfig.Process env rest spec').
  { intros spec'. apply IH. intros info Hin. by apply H, list_elem_of_further. }
  destruct (_ && _).
  - by destruct (envconfig.Required i).
  - by destruct (envconfig.processField i _).
Qed.

Section MoreStart.

Variable ParseDuration : string -> option time.Duration.
Variable httpInfos : list (envconfig.varInfo ginserver.Config).

Abbreviation Start := (app.Start ParseDuration httpInfos).
Abbreviation gatherInfo := (app.gatherInfo ParseDuration httpInfos).

(** X1: when gin refuses one of the two routes, for a wildcard in the
    prefix, [Start] panics while it registers the route: it has started
    no listener and subscribed to no signal, and at most the route of
    the version is registered. *)
Theorem Start_panics_on_refused_route (w : World) (config : app.Config) :
  envconfig.Process (Environ w) gatherInfo app.zero = inr config ->
  Run.accepted w (ginserver.Prefix (app.HTTP config)) = false ->
  (exists path,
     outcome (Start w) = Panicked (RouteRefused path)
     /\ (path = app.versionPath (ginserver.Prefix (app.HTTP config))
         \/ path = app.helloPath (ginserver.Prefix (app.HTTP config))))
  /\ (forall ev,
        ev ∈ trace (Start w) ->
        ev = Handle "GET" (app.versionPath (ginserver.Prefix (app.HTTP config)))).
Proof.
  intros E Hr. rewrite (Start_refused _ _ _ _ E Hr). unfold Run.refused.
  destruct (RefusesRoute w [] _); cbn [outcome trace fst snd].
  - split; [eauto |]. by intros ev ?%elem_of_nil.
  - split; [eauto |]. by intros ev ?%list_elem_of_singleton.
Qed.

(** X2: [Start] returns nothing but nil, and returns only after a
    signal has been delivered and received and the stop function
    called: the events of a run that returns are those of the start
    followed by those of the shutdown. *)
Theorem Start_returns_only_nil (w : World) (result : option error) :
  outcome (Start w) = Done result ->
  result = None
  /\ exists sig config,
       Delivered w = Some sig
       /\ envconfig.Process (Environ w) gatherInfo app.zero = inr config
       /\ trace (Start w) = Run.startup w config ++ Run.shutdown config sig.
Proof.
  intros H.
  destruct (Start_cases ParseDuration httpInfos w) as [(err & _ & HS)|[(config & _ & _ & HS)|H3]].
  - by rewrite HS in H.
  - rewrite HS in H. unfold Run.refused in H. by destruct (RefusesRoute w [] _).
  - destruct H3 as (config & E & _ & HS). rewrite HS in H |- *.
    destruct (Delivered w) as [sig|]; [|done].
    injection H as <-. split; [done |]. by exists sig, config.
Qed.

(** X3: a run of [Start] that has subscribed to signals has subscribed
    to SIGINT and SIGTERM; from there it waits for ever when no signal
    comes, and receives the signal and returns nil when one comes. *)
Theorem Start_serves_until_signal (w : World) (sigs : list Signal) :
  Notify sigs ∈ trace (Start w) ->
  sigs = [SIGINT; SIGTERM]
  /\ match Delivered w with
     | None => outcome (Start w) = Blocked
     | Some sig => Received sig ∈ trace (Start w) /\ outcome (Start w) = Done None
     end.
Proof.
  intros Hin.
  destruct (Start_reached _ _ _ _ Hin) as (config & _ & _ & HS); [done |].
  rewrite HS in Hin |- *. unfold Run.startup, Run.shutdown in *.
  destruct (Delivered w) as [sig|]; cbn [trace outcome fst snd] in *.
  - split; [event_cases Hin |]. split; [event_here | done].
  - split; [event_cases Hin | done].
Qed.

(** X4: [Start] registers no route but its two, both for GET; the route
    of hello is registered after that of the version. *)
Theorem Start_registers_two_routes (w : World) (method path : string) :
  Handle method path ∈ trace (Start w) ->
  exists config,
    envconfig.Process (Environ w) gatherInfo app.zero = inr config
    /\ method = "GET"
    /\ (path = app.versionPath (ginserver.Prefix (app.HTTP config))
        \/ (path = app.helloPath (ginserver.Prefix (app.HTTP config))
            /\ Handle "GET" (app.versionPath (ginserver.Prefix (app.HTTP config)))
               ∈ trace (Start w))).
Proof.
  intros Hin.
  destruct (Start_cases ParseDuration httpInfos w) as [(err & _ & HS)|[(config & E & _ & HS)|H3]].
  - rewrite HS in Hin. by apply elem_of_nil in Hin.
  - exists config. split; [done |]. rewrite HS in Hin. unfold Run.refused in Hin.
    destruct (RefusesRoute w [] _); cbn [trace fst] in Hin.
    + by apply elem_of_nil in Hin.
    + apply list_elem_of_singleton in Hin. injection Hin as -> ->. auto.
  - destruct H3 as (config & E & _ & HS). exists config. split; [done |].
    rewrite HS in Hin |- *. unfold Run.startup, Run.shutdown in *.
    destruct (Delivered w); cbn [trace fst] in *.
    + apply list_elem_of_In in Hin. cbn [In app] in Hin.
      destruct Hin as [[= <- <-]|[[= <- <-]|Hin]].
      * auto.
      * split; [done |]. right. split; [done | event_here].
      * intuition discriminate.
    + apply list_elem_of_In in Hin. cbn [In app] in Hin.
      destruct Hin as [[= <- <-]|[[= <- <-]|Hin]].
      * auto.
      * split; [done |]. right. split; [done | event_here].
      * intuition discriminate.
Qed.

(** X5: the context [Start] passes to the stop function expires after the
    duration written in [SHUTDOWN_TIMEOUT], or after that of [20s] when
    the variable is not set. *)
Theorem stop_timeout_from_environment (w : World) (timeout : option time.Duration) :
  StopHTTP timeout ∈ trace (Start w) ->
  exists d,
    timeout = Some d
    /\ ParseDuration (default "20s" (Environ w !! "SHUTDOWN_TIMEOUT")) = Some d.
Proof.
  intros Hin.
  destruct (Start_reached _ _ _ _ Hin) as (config & E & _ & HS); [done |].
  exists (app.ShutdownTimeout config).
  split; [|by apply (ShutdownTimeout_configured _ httpInfos)].
  rewrite HS in Hin. unfold Run.startup, Run.shutdown in Hin.
  destruct (Delivered w); cbn [trace fst] in Hin; event_cases Hin.
Qed.

(** X6: the configuration [Start] loads, or the error it panics with,
    depends on no variable but those of the fields of [Config]: two
    environments that agree on the keys of the gathered fields give the
    same result. *)
Theorem config_reads_only_its_variables (env env' : gmap string string) :
  (forall info, info ∈ gatherInfo ->
     env' !! envconfig.Key info = env !! envconfig.Key info
     /\ env' !! envconfig.Alt info = env !! envconfig.Alt info) ->
  envconfig.Process env' gatherInfo app.zero
  = envconfig.Process env gatherInfo app.zero.
Proof.
  intros H. apply Process_agree. intros info Hin.
  destruct (H info Hin) as [Hk Ha]. unfold envconfig.lookup. by rewrite Hk, Ha.
Qed.

End MoreStart.

(** ** Routes under any prefix *)

Lemma length_append (a b : string) :
  String.length (a +:+ b) = (String.length a + String.length b)%nat.
Proof.
  induction a as [|c a IH]; [done |].
  change (String c a +:+ b) with (String c (a +:+ b)). cbn. by rewrite IH.
Qed.

Lemma drop_append (a b : string) : strings.drop (String.length a) (a +:+ b) = b.
Proof. induction a as [|c a IH]; [by destruct b | exact IH]. Qed.

Lemma HasSuffix_append (a suffix : string) :
  strings.HasSuffix (a +:+ suffix) suffix = true.
Proof.
  unfold strings.HasSuffix, strings.len. rewrite length_append.
  apply andb_true_iff. split; [apply Nat.leb_le; lia |].
  replace (String.length a + String.length suffix - String.length suffix)%nat
    with (String.length a) by lia.
  rewrite drop_append. apply String.eqb_refl.
Qed.

(** Cleaning a rooted path that ends in a kept element gives a path
    that ends in a slash and that element. *)
Lemma Clean_rooted_kept (x e : string) :
  path.kept e ->
  exists pre, path.Clean (String "/" (x +:+ String "/" e)) = pre +:+ String "/" e.
Proof.
  intros [Hsplit Hstep]. rewrite Clean_rooted, SplitSlash_append, Hsplit.
  rewrite fold_left_app. cbn [fold_left]. rewrite Hstep. cbn [rev].
  destruct (rev (fold_left (path.cleanStep true) (strings.SplitSlash x) []))
    as [|a l] eqn:El.
  - by exists "".
  - exists ("/" +:+ strings.Join (a :: l) "/").
    rewrite Join_snoc by done. by rewrite !append_assoc.
Qed.

Lemma Clean_root_kept (e : string) :
  path.kept e -> path.Clean (String "/" e) = String "/" e.
Proof.
  intros [Hsplit Hstep]. rewrite Clean_rooted, Hsplit. cbn [fold_left].
  by rewrite Hstep.
Qed.

Lemma IsAbs_inv (p : string) :
  path.IsAbs p = true -> exists rest, p = String "/" rest.
Proof.
  destruct p as [|c p]; [discriminate |]. cbn.
  intros ->%Ascii.eqb_eq. by eexists.
Qed.

Lemma Clean_is_rooted (s : string) : path.IsAbs (path.Clean (String "/" s)) = true.
Proof. by rewrite Clean_rooted. Qed.

Lemma joinPaths_is_rooted (a rel : string) :
  path.IsAbs a = true -> path.IsAbs (gin.joinPaths a rel) = true.
Proof.
  intros [a' ->]%IsAbs_inv. unfold gin.joinPaths.
  destruct (String.eqb rel ""); [done |].
  assert (H : path.IsAbs (path.Join (String "/" a') rel) = true).
  { unfold path.Join. cbn [String.eqb].
    destruct (String.eqb rel ""); apply Clean_is_rooted. }
  destruct (_ && _); [|done].
  apply IsAbs_inv in H as [r ->]. done.
Qed.

Lemma joinPaths_rooted_kept (a x e : string) (c : ascii) :
  path.IsAbs a = true ->
  path.kept e -> strings.lastChar e = Some c -> c <> "/"%char ->
  exists pre, gin.joinPaths a (x +:+ String "/" e) = pre +:+ String "/" e.
Proof.
  intros [a' ->]%IsAbs_inv He Hc Hne.
  assert (Hl : strings.lastChar (x +:+ String "/" e) = Some c).
  { apply lastChar_append. by apply lastChar_cons. }
  rewrite joinPaths_no_slash; [| by intros E; rewrite E in Hl | by rewrite Hl; congruence].
  unfold path.Join. cbn [String.eqb].
  destruct (String.eqb_spec (x +:+ String "/" e) "") as [E|_]; [by rewrite E in Hl |].
  replace (String "/" a' +:+ "/" +:+ x +:+ String "/" e)
    with (String "/" ((a' +:+ "/" +:+ x) +:+ String "/" e)).
  - by apply Clean_rooted_kept.
  - change (String "/" a' +:+ "/" +:+ x +:+ String "/" e)
      with (String "/" (a' +:+ "/" +:+ x +:+ String "/" e)).
    by rewrite !append_assoc.
Qed.

(** X7: whatever the prefix is, relative, with doubled slashes or with dot
    elements, the two routes of [Start] are absolute paths, one ending in
    [/version] and one in [/hello]. *)
Theorem routes_for_any_prefix (basePath : string) :
  path.IsAbs (app.versionPath basePath) = true
  /\ strings.HasSuffix (app.versionPath basePath) "/version" = true
  /\ path.IsAbs (app.helloPath basePath) = true
  /\ strings.HasSuffix (app.helloPath basePath) "/hello" = true.
Proof.
  assert (Hroot : path.IsAbs gin.rootGroup = true) by done.
  split_and!.
  - by apply joinPaths_is_rooted.
  - unfold app.versionPath.
    destruct (joinPaths_rooted_kept gin.rootGroup basePath "version" "n"
                Hroot kept_version eq_refl) as [pre Hpre]; [done |].
    change (basePath +:+ "/version") with (basePath +:+ String "/" "version").
    rewrite Hpre. apply HasSuffix_append.
  - by apply joinPaths_is_rooted, joinPaths_is_rooted.
  - unfold app.helloPath.
    destruct (joinPaths_rooted_kept (gin.Group gin.rootGroup basePath) "" "hello" "o"
                (joinPaths_is_rooted _ basePath Hroot) kept_hello eq_refl)
      as [pre Hpre]; [done |].
    change "/hello" with ("" +:+ String "/" "hello") at 1.
    rewrite Hpre. apply HasSuffix_append.
Qed.

Section MoreProcess.

Variable ParseDuration : string -> option time.Duration.
Variable httpInfos : list (envconfig.varInfo ginserver.Config).
Variable postgresCli :
  migrate.Migrations -> World -> list string -> Proc (option error).
Variable cliOther : World -> list string -> Proc (option error).

Abbreviation process :=
  (main.process ParseDuration httpInfos postgresCli cliOther).
Abbreviation Start := (app.Start ParseDuration httpInfos).
Abbreviation gatherInfo := (app.gatherInfo ParseDuration httpInfos).

(** X8: the command [app start], once the migrations are discovered, is
    the two log lines of initialisation followed by [Start]; the
    process ends as [Start] does, with status 0 when it returns and
    status 2 when it panics.  It ends with status 0 only after a
    signal, and never reaches [log.Fatal]. *)
Theorem app_start_exit_status (embedded : migrate.FS) (m : migrate.Migrations)
    (w : World) (prog : string) :
  migrate.Discover migrate.NewMigrations embedded = (m, None) ->
  trace (process embedded w [prog; "app"; "start"])
  = [ LogInfo "Discovering SQL migrations...";
      LogInfo "SQL migrations discovered successfully" ] ++ trace (Start w)
  /\ ExitStatus (outcome (process embedded w [prog; "app"; "start"]))
     = ExitStatus (outcome (Start w))
  /\ (ExitStatus (outcome (process embedded w [prog; "app"; "start"])) = Some 0 ->
      is_Some (Delivered w))
  /\ ExitStatus (outcome (process embedded w [prog; "app"; "start"])) <> Some 1
  /\ (forall err, LogFatal err ∉ trace (process embedded w [prog; "app"; "start"])).
Proof.
  intros E. unfold main.process, main.main, main.Run.
  rewrite (init_ok _ _ E), bind_Done. cbn [trace outcome fst snd].
  destruct (Start_cases ParseDuration httpInfos w) as [(err & _ & HS)|[(config & _ & _ & HS)|H3]].
  - rewrite HS. cbn. split_and!; [done.. |]. intros e H. event_cases H.
  - rewrite HS. unfold Run.refused.
    destruct (RefusesRoute w [] _); cbn; (split_and!; [done.. |]);
      intros e H; event_cases H.
  - destruct H3 as (config & _ & _ & HS). rewrite HS.
    unfold Run.startup, Run.shutdown.
    destruct (Delivered w); cbn; (split_and!; [done.. |]);
      intros e H; event_cases H.
Qed.

End MoreProcess.

(** ** Suffixes *)

Lemma drop_split (n : nat) (s : string) :
  (n <= String.length s)%nat ->
  exists pre, s = pre +:+ strings.drop n s /\ String.length pre = n.
Proof.
  revert s. induction n as [|n IH]; intros s Hn.
  - exists "". by destruct s.
  - destruct s as [|c s]; [cbn in Hn; lia |].
    destruct (IH s) as (pre & Hs & Hl); [cbn in Hn; lia |].
    exists (String c pre). split; [|by cbn; rewrite Hl].
    change (String c pre +:+ strings.drop (S n) (String c s))
      with (String c (pre +:+ strings.drop n s)).
    by rewrite <- Hs.
Qed.

Lemma HasSuffix_inv (s suffix : string) :
  strings.HasSuffix s suffix = true -> exists pre, s = pre +:+ suffix.
Proof.
  unfold strings.HasSuffix, strings.len.
  intros [Hle Heq]%andb_true_iff. apply Nat.leb_le in Hle.
  apply String.eqb_eq in Heq.
  destruct (drop_split (String.length s - String.length suffix) s) as (pre & Hs & _);
    [lia |].
  exists pre. by rewrite <- Heq.
Qed.

Lemma append_suffix_inj (a1 a2 b1 b2 : string) :
  a1 +:+ b1 = a2 +:+ b2 -> String.length b1 = String.length b2 -> b1 = b2.
Proof.
  intros E Hl.
  assert (Ha : String.length a1 = String.length a2).
  { apply (f_equal String.length) in E. rewrite !length_append in E. lia. }
  rewrite <- (drop_append a1 b1), <- (drop_append a2 b2). by rewrite E, Ha.
Qed.

(** No path ends in both suffixes. *)
Lemma up_not_down (f : string) :
  strings.HasSuffix f ".up.sql" = true -> strings.HasSuffix f ".down.sql" = false.
Proof.
  intros [p1 H1]%HasSuffix_inv.
  destruct (strings.HasSuffix f ".down.sql") eqn:Hd; [|done].
  apply HasSuffix_inv in Hd as [p2 H2]. rewrite H1 in H2.
  change (p2 +:+ ".down.sql") with (p2 +:+ ".d" +:+ "own.sql") in H2.
  rewrite <- append_assoc in H2.
  by apply append_suffix_inj in H2.
Qed.

Lemma suffix_direction (f : string) (d d' : direction) :
  strings.HasSuffix f (suffix d) = true ->
  strings.HasSuffix f (suffix d') = true -> d = d'.
Proof.
  destruct d, d'; cbn; intros H1 H2; try done.
  - apply up_not_down in H1. congruence.
  - apply up_not_down in H2. congruence.
Qed.

Lemma isMigrationFile_suffix (f : string) :
  isMigrationFile f = true <-> exists d, strings.HasSuffix f (suffix d) = true.
Proof.
  unfold isMigrationFile. rewrite orb_true_iff. split.
  - intros [H|H]; [by exists up | by exists down].
  - intros [[] H]; auto.
Qed.

(** ** More on discovery *)

Lemma discoverFile_error (ms ms' : migrate.Migrations) (f : string) (err : error) :
  migrate.discoverFile ms f = (ms', Some err) ->
  isMigrationFile f = true /\ migrate.extractMigrationName f = inl err.
Proof.
  destruct (discoverFile_spec ms f)
    as [(Hup & Hdown & E)|[(e & Hx & E)|(d & name & comment & Hs & Hx & E)]];
    rewrite E; intros [= <- <-] || intros [=].
  split; [|done]. unfold isMigrationFile, migrate.discoverFile in *.
  destruct (strings.HasSuffix f ".up.sql"); [done |].
  destruct (strings.HasSuffix f ".down.sql"); [done |]. discriminate.
Qed.

Lemma discoverFile_other (ms : migrate.Migrations) (f : string) :
  isMigrationFile f = false -> migrate.discoverFile ms f = (ms, None).
Proof.
  unfold isMigrationFile, migrate.discoverFile.
  intros [-> ->]%orb_false_iff. done.
Qed.

Lemma walk_error (files : list string) (ms ms' : migrate.Migrations) (err : error) :
  migrate.walk ms files = (ms', Some err) ->
  exists f, f ∈ files /\ isMigrationFile f = true
            /\ migrate.extractMigrationName f = inl err.
Proof.
  revert ms. induction files as [|f files IH]; intros ms; [discriminate |].
  cbn [migrate.walk].
  destruct (migrate.discoverFile ms f) as [ms1 [e|]] eqn:E.
  - intros [= <- <-]. apply discoverFile_error in E as [? ?].
    exists f. split; [apply list_elem_of_here | done].
  - intros H. destruct (IH _ H) as (g & Hin & Hg).
    exists g. split; [by apply list_elem_of_further | done].
Qed.

Lemma walk_filter (files : list string) (ms : migrate.Migrations) :
  migrate.walk ms (filter (fun f => isMigrationFile f = true) files)
  = migrate.walk ms files.
Proof.
  revert ms. induction files as [|f files IH]; intros ms; [done |].
  destruct (isMigrationFile f) eqn:Hf.
  - rewrite filter_cons_True by done. cbn [migrate.walk].
    destruct (migrate.discoverFile ms f) as [ms1 [e|]]; [done | apply IH].
  - rewrite filter_cons_False by (by rewrite Hf).
    cbn [migrate.walk]. rewrite (discoverFile_other _ _ Hf). apply IH.
Qed.

Lemma NoDup_Name_eq (ms : migrate.Migrations) (a b : migrate.Migration) :
  NoDup (migrate.Name <$> ms) -> a ∈ ms -> b ∈ ms ->
  migrate.Name a = migrate.Name b -> a = b.
Proof.
  intros ND [i Hi]%list_elem_of_lookup [j Hj]%list_elem_of_lookup E.
  assert (i = j) as ->; [|congruence].
  eapply NoDup_lookup; [exact ND | |]; rewrite list_lookup_fmap.
  - by rewrite Hi.
  - rewrite Hj. cbn. by rewrite E.
Qed.

Section Upsert2.

Variable name : string.
Variable g : migrate.Migration -> migrate.Migration.

Lemma upsert_has (ms : migrate.Migrations) :
  exists m0, g m0 ∈ upsert name g ms /\ migrate.Name m0 = name
             /\ (m0 ∈ ms \/ m0 = migrate.mkMigration name "" None None).
Proof.
  induction ms as [|m rest (m0 & Hin & Hn & Hm0)]; cbn [upsert].
  - eexists. split; [apply list_elem_of_here |]. split; [done | by right].
  - destruct (decide (migrate.Name m = name)) as [E|NE].
    + exists m. split; [apply list_elem_of_here |]. split; [done |].
      left. apply list_elem_of_here.
    + exists m0. split; [by apply list_elem_of_further |]. split; [done |].
      destruct Hm0 as [?| ->]; [left; by apply list_elem_of_further | by right].
Qed.

Lemma upsert_keeps (ms : migrate.Migrations) (x : migrate.Migration) :
  x ∈ ms ->
  x ∈ upsert name g ms \/ (migrate.Name x = name /\ g x ∈ upsert name g ms).
Proof.
  induction ms as [|m rest IH]; [by intros ?%elem_of_nil |].
  cbn [upsert]. intros [->|Hx]%elem_of_cons.
  - destruct (decide (migrate.Name m = name)) as [E|NE].
    + right. split; [done | apply list_elem_of_here].
    + left. apply list_elem_of_here.
  - destruct (decide (migrate.Name m = name)) as [E|NE].
    + left. by apply list_elem_of_further.
    + destruct (IH Hx) as [?|[? ?]];
        [left | right; split; [done |]]; by apply list_elem_of_further.
Qed.

End Upsert2.

Lemma upsert_hasScript_keep (ms : migrate.Migrations) (n name f comment : string)
    (d d0 : direction) :
  hasScript ms n d0 ->
  hasScript (upsert name (setScript d f ∘ migrate.setComment comment) ms) n d0.
Proof.
  intros (mig & Hin & Hn & Hs).
  destruct (upsert_keeps name (setScript d f ∘ migrate.setComment comment) ms mig Hin)
    as [H|[_ H]].
  - by exists mig.
  - eexists. split; [exact H |]. rewrite setScript_Name. split; [done |].
    rewrite script_setScript. by case_decide.
Qed.

Lemma upsert_hasScript_new (ms : migrate.Migrations) (name f comment : string)
    (d : direction) :
  hasScript (upsert name (setScript d f ∘ migrate.setComment comment) ms) name d.
Proof.
  destruct (upsert_has name (setScript d f ∘ migrate.setComment comment) ms)
    as (m0 & Hin & Hn & _).
  eexists. split; [exact Hin |]. rewrite setScript_Name. split; [done |].
  rewrite script_setScript, decide_True by done. by eexists.
Qed.

Lemma walk_scripts (files : list string) (ms m : migrate.Migrations) :
  migrate.walk ms files = (m, None) ->
  (forall n d, hasScript ms n d -> hasScript m n d)
  /\ (forall f d n comment,
        f ∈ files -> strings.HasSuffix f (suffix d) = true ->
        migrate.extractMigrationName f = inr (n, comment) ->
        hasScript m n d).
Proof.
  revert ms. induction files as [|f files IH]; intros ms Hw.
  - injection Hw as <-. split; [done |]. intros ???? Hf. by apply elem_of_nil in Hf.
  - cbn [migrate.walk] in Hw.
    destruct (discoverFile_spec ms f)
      as [(Hup & Hdown & E)|[(e & Hx & E)|(d & name & comment & Hs & Hx & E)]];
      rewrite E in Hw; [|discriminate|].
    + destruct (IH _ Hw) as [Hkeep Hnew]. split; [done |].
      intros f' d' n c [->|Hf]%elem_of_cons Hs' Hx'; [|by eauto].
      destruct d'; cbn in Hs'; congruence.
    + destruct (IH _ Hw) as [Hkeep Hnew]. split.
      * intros n d0 H. by apply Hkeep, upsert_hasScript_keep.
      * intros f' d' n c [->|Hf]%elem_of_cons Hs' Hx'; [|by eauto].
        rewrite Hx in Hx'. injection Hx' as <- <-.
        rewrite <- (suffix_direction _ _ _ Hs Hs').
        apply Hkeep, upsert_hasScript_new.
Qed.

(** ** The registry and the embedded files *)

(** X9: initialisation panics exactly when some migration file, one ending
    in [.up.sql] or [.down.sql], has a name that is not of the form
    digits, underscore, comment, dot; the panic value is the error for
    such a file. *)
Theorem init_panics_iff_malformed (embedded : migrate.FS) :
  (exists err, outcome (migrations.init embedded) = Panicked err)
  <-> exists f err,
        f ∈ fst <$> embedded /\ isMigrationFile f = true
        /\ migrate.extractMigrationName f = inl err.
Proof.
  split.
  - intros [err H]. unfold migrations.init in H.
    destruct (migrate.Discover migrate.NewMigrations embedded) as [m [e|]] eqn:E.
    + apply walk_error in E as (f & Hf & Hm & Hx). exists f, e. auto.
    + discriminate.
  - intros (f & err & Hf & [d Hd]%isMigrationFile_suffix & Hx).
    destruct (Discover_malformed embedded f d err Hf Hd Hx) as [e He].
    destruct (migrate.Discover migrate.NewMigrations embedded) as [m o] eqn:E.
    cbn in He. subst o. exists e. by rewrite (init_error _ _ _ E).
Qed.

(** X10: files that are no migration files, such as an embedded [test.sql],
    have no effect on discovery: the registry and the error are those
    of the migration files alone. *)
Theorem Discover_ignores_other_files (m : migrate.Migrations)
    (fsys : list (string * string)) :
  migrate.Discover m fsys
  = migrate.Discover m (filter (fun e => isMigrationFile e.1 = true) fsys).
Proof.
  unfold migrate.Discover. rewrite <- walk_filter. f_equal.
  induction fsys as [|[f sql] fsys IH]; [done |].
  cbn [fmap list_fmap fst]. destruct (isMigrationFile f) eqn:Hf.
  - rewrite !filter_cons_True by (cbn; done). cbn [fmap list_fmap fst]. by rewrite IH.
  - rewrite !filter_cons_False by (cbn; by rewrite Hf). exact IH.
Qed.

(** X11: a migration of the registry has a script for a direction exactly
    when a file of that direction with its name is embedded. *)
Theorem script_iff_file (fsys : migrate.FS) (m : migrate.Migrations)
    (mig : migrate.Migration) (d : direction) :
  migrate.Discover migrate.NewMigrations fsys = (m, None) ->
  mig ∈ m ->
  is_Some (script d mig)
  <-> exists f comment,
        f ∈ fst <$> fsys /\ strings.HasSuffix f (suffix d) = true
        /\ migrate.extractMigrationName f = inr (migrate.Name mig, comment).
Proof.
  intros E Hmig. destruct (Discover_spec _ _ E) as (ND & Hd & _). split.
  - intros [f Hf]. eapply Forall_forall in Hd as [_ Hscript]; [|exact Hmig].
    destruct (Hscript d f Hf) as (Hin & Hs & c & Hx). by exists f, c.
  - intros (f & c & Hf & Hs & Hx).
    destruct (walk_scripts _ _ _ E) as [_ Hnew].
    destruct (Hnew f d _ c Hf Hs Hx) as (mig' & Hin' & Hn & Hsome).
    by rewrite <- (NoDup_Name_eq m mig' mig ND Hin' Hmig Hn).
Qed.

(** X12: the registry has one migration for each name found in a migration
    file: its names are distinct, and they are exactly the names of the
    migration files, so files of one name share one migration. *)
Theorem registry_names (fsys : migrate.FS) (m : migrate.Migrations) :
  migrate.Discover migrate.NewMigrations fsys = (m, None) ->
  NoDup (migrate.Name <$> m)
  /\ forall n,
       n ∈ migrate.Name <$> m
       <-> exists f comment,
             f ∈ fst <$> fsys /\ isMigrationFile f = true
             /\ migrate.extractMigrationName f = inr (n, comment).
Proof.
  intros E. destruct (Discover_spec _ _ E) as (ND & Hd & Hcov).
  split; [done |]. intros n. split.
  - intros (mig & -> & Hmig)%list_elem_of_fmap.
    eapply Forall_forall in Hd as [Hsome Hscript]; [|exact Hmig].
    destruct Hsome as [[f Hf]|[f Hf]].
    + destruct (Hscript up f Hf) as (Hin & Hs & c & Hx).
      exists f, c. split; [done |]. split; [|done].
      apply isMigrationFile_suffix. by exists up.
    + destruct (Hscript down f Hf) as (Hin & Hs & c & Hx).
      exists f, c. split; [done |]. split; [|done].
      apply isMigrationFile_suffix. by exists down.
  - intros (f & c & Hf & [d Hs]%isMigrationFile_suffix & Hx).
    destruct (Hcov f d Hf Hs) as (n' & c' & Hx' & Hn). congruence.
Qed.

(** ** Spans *)

Lemma span_sound (p : ascii -> bool) (s a b : string) :
  strings.span p s = (a, b) ->
  s = a +:+ b /\ strings.allBytes p a = true /\ strings.stops p b.
Proof.
  revert a b. induction s as [|c s IH]; intros a b; cbn [strings.span].
  - by intros [= <- <-].
  - destruct (p c) eqn:Hc.
    + destruct (strings.span p s) as [a' b'].
      destruct (IH a' b' eq_refl) as (E & Ha & Hb).
      intros [= <- <-]. cbn [strings.allBytes]. split_and!; [by subst s | by apply andb_true_iff | done].
    + intros [= <- <-]. by split_and!.
Qed.

Lemma span_complete (p : ascii -> bool) (a b : string) :
  strings.allBytes p a = true -> strings.stops p b -> strings.span p (a +:+ b) = (a, b).
Proof.
  intros Ha Hb. induction a as [|x a IH].
  - change ("" +:+ b) with b. destruct b as [|c b]; [done |].
    cbn in Hb |- *. by rewrite Hb.
  - cbn [strings.allBytes] in Ha. apply andb_true_iff in Ha as [Hx Ha].
    change (String x a +:+ b) with (String x (a +:+ b)).
    cbn [strings.span]. by rewrite Hx, (IH Ha).
Qed.

(** ** Names of migration files *)

(** X13: [extractMigrationName] accepts exactly the paths whose last element
    is one to fourteen digits, an underscore, one or more bytes of
    [0-9a-z_-] and a dot, followed by anything; the digits are the name
    and the bytes the comment.  Every other path is rejected with the
    error that names its last element. *)
Theorem extractMigrationName_accepts (fpath name comment : string) :
  migrate.extractMigrationName fpath = inr (name, comment)
  <-> exists rest,
        migrate.Base fpath = name +:+ String "_" (comment +:+ String "." rest)
        /\ (1 <= String.length name <= 14)%nat
        /\ strings.allBytes migrate.isDigit name = true
        /\ comment <> ""
        /\ strings.allBytes migrate.isCommentChar comment = true.
Proof.
  unfold migrate.extractMigrationName, strings.len. split.
  - destruct (strings.span migrate.isDigit (migrate.Base fpath)) as [digits r] eqn:E1.
    apply span_sound in E1 as (E1 & Hd & _).
    destruct r as [|c r]; [discriminate |].
    destruct (Ascii.eqb_spec c "_") as [->|Hc].
    2: { destruct c as [[] [] [] [] [] [] [] []]; try discriminate; by destruct Hc. }
    destruct (strings.span migrate.isCommentChar r) as [cm r'] eqn:E2.
    apply span_sound in E2 as (E2 & Hcm & _).
    destruct r' as [|c' r']; [discriminate |].
    destruct (Ascii.eqb_spec c' ".") as [->|Hc'].
    2: { destruct c' as [[] [] [] [] [] [] [] []]; try discriminate; by destruct Hc'. }
    destruct (_ && _) eqn:Hlen; [|discriminate].
    intros [= <- <-].
    apply andb_true_iff in Hlen as [[H1 H2]%andb_true_iff H3].
    apply Nat.leb_le in H1, H2, H3.
    exists r'. rewrite E1, E2. split_and!; try done.
    intros ->. cbn in H3. lia.
  - intros (rest & E & [H1 H2] & Hd & Hne & Hc).
    rewrite E, (span_complete migrate.isDigit name) by done.
    rewrite (span_complete migrate.isCommentChar comment) by done.
    assert (1 <= String.length comment)%nat by (destruct comment; [done | cbn; lia]).
    by rewrite !(proj2 (Nat.leb_le _ _)) by done.
Qed.

(** The error of a rejected path names its last element. *)
Lemma extractMigrationName_rejects (fpath : string) (err : error) :
  migrate.extractMigrationName fpath = inl err ->
  err = UnsupportedName (migrate.Base fpath).
Proof.
  unfold migrate.extractMigrationName.
  destruct (strings.span _ _) as [digits r]. destruct r as [|c r]; [congruence |].
  destruct c as [[] [] [] [] [] [] [] []]; try congruence.
  destruct (strings.span _ _) as [cm r']. destruct r' as [|c' r']; [congruence |].
  destruct c' as [[] [] [] [] [] [] [] []]; try congruence.
  destruct (_ && _); congruence.
Qed.

(** ** The two versions of the package of migrations *)

(** X20: the version of [init] that does not log ends as the version
    that logs does, with the same registry or the same panic value; it
    leaves no event, and the events of the other are log lines only. *)
Theorem init_versions_agree (embedded : migrate.FS) :
  outcome (migrationsNoLog.init embedded) = outcome (migrations.init embedded)
  /\ trace (migrationsNoLog.init embedded) = []
  /\ Forall (fun e => exists msg, e = LogInfo msg)
       (trace (migrations.init embedded)).
Proof.
  unfold migrationsNoLog.init, migrations.init.
  destruct (migrate.Discover migrate.NewMigrations embedded) as [m [err|]];
    cbn; (split; [done |]); (split; [done |]);
    repeat constructor; eauto.
Qed.

(** ** The keys of an env file *)

(** *** Reversal, trimming and cutting *)

(** Moves the constructors of the left operand out of an append. *)
Ltac push_append :=
  repeat match goal with
    | |- context [String ?a ?s +:+ ?t] =>
        change (String a s +:+ t) with (String a (s +:+ t))
    | |- context [EmptyString +:+ ?t] => change (EmptyString +:+ t) with t
    end;
  cbn beta iota.

Lemma append_nil_r (a : string) : a +:+ "" = a.
Proof.
  induction a as [|c a IH]; [done |].
  change (String c a +:+ "") with (String c (a +:+ "")). by rewrite IH.
Qed.

Lemma reverse_append (a b : string) :
  strings.reverse (a +:+ b) = strings.reverse b +:+ strings.reverse a.
Proof.
  induction a as [|c a IH].
  - change ("" +:+ b) with b. cbn. by rewrite append_nil_r.
  - change (String c a +:+ b) with (String c (a +:+ b)).
    cbn [strings.reverse]. by rewrite IH, append_assoc.
Qed.

Lemma reverse_involutive (s : string) : strings.reverse (strings.reverse s) = s.
Proof.
  induction s as [|c s IH]; [done |].
  cbn [strings.reverse]. rewrite reverse_append, IH. done.
Qed.

Lemma hasByte_append (c : ascii) (a b : string) :
  strings.hasByte c (a +:+ b) = strings.hasByte c a || strings.hasByte c b.
Proof.
  induction a as [|x a IH]; [done |].
  change (String x a +:+ b) with (String x (a +:+ b)).
  cbn [strings.hasByte]. by rewrite IH, orb_assoc.
Qed.

Lemma hasByte_reverse (c : ascii) (s : string) :
  strings.hasByte c (strings.reverse s) = strings.hasByte c s.
Proof.
  induction s as [|x s IH]; [done |].
  cbn [strings.reverse]. rewrite hasByte_append, IH. cbn.
  by rewrite orb_false_r, orb_comm.
Qed.

(** Induction on the length of a string. *)
Lemma string_length_ind (P : string -> Prop) :
  (forall s, (forall t, (String.length t < String.length s)%nat -> P t) -> P s) ->
  forall s, P s.
Proof.
  intros H s. remember (String.length s) as n eqn:Hn.
  revert s Hn. induction (lt_wf n) as [n _ IH]. intros s ->.
  apply H. intros t Ht. by apply (IH _ Ht).
Qed.

(** Trimming, for any choice of the runes that are cut. *)

Section TrimFacts.

Variable cut1 : ascii -> bool.
Variable cut2 : ascii -> ascii -> bool.
Variable cut3 : ascii -> ascii -> ascii -> bool.

Abbreviation trim := (strings.trimLeading cut1 cut2 cut3).
Abbreviation leads := (strings.leads cut1 cut2 cut3).

(** One step of [trimLeading]. *)
Lemma trim_cases (s : string) :
  (leads s = false /\ trim s = s)
  \/ (exists c1 s1, s = String c1 s1 /\ trim s = trim s1)
  \/ (exists c1 c2 s2, s = String c1 (String c2 s2) /\ trim s = trim s2)
  \/ (exists c1 c2 c3 s3,
        s = String c1 (String c2 (String c3 s3)) /\ trim s = trim s3).
Proof.
  destruct s as [|c1 s1]; [by left |]. cbn [strings.trimLeading strings.leads].
  destruct (cut1 c1); [right; left; by eauto |]. cbn [orb].
  destruct s1 as [|c2 s2]; [by left |].
  destruct (cut2 c1 c2); [right; right; left; by eauto |]. cbn [orb].
  destruct s2 as [|c3 s3]; [by left |].
  destruct (cut3 c1 c2 c3); [right; right; right; by eauto 10 | by left].
Qed.

Lemma trim_fix (s : string) : leads s = false -> trim s = s.
Proof.
  destruct s as [|c1 s1]; [done |]. cbn [strings.trimLeading strings.leads].
  destruct (cut1 c1); [done |]. cbn [orb].
  destruct s1 as [|c2 s2]; [done |].
  destruct (cut2 c1 c2); [done |]. cbn [orb].
  destruct s2 as [|c3 s3]; [done |]. by intros ->.
Qed.

Lemma leads_trim (s : string) : leads (trim s) = false.
Proof.
  induction s as [s IH] using string_length_ind.
  destruct (trim_cases s) as
    [[Hl ->]|[(c1 & s1 & -> & ->)|[(c1 & c2 & s2 & -> & ->)
     |(c1 & c2 & c3 & s3 & -> & ->)]]]; [done | ..]; apply IH; cbn; lia.
Qed.

Lemma trim_idemp (s : string) : trim (trim s) = trim s.
Proof. apply trim_fix, leads_trim. Qed.

Lemma trim_suffix (s : string) : exists pre, s = pre +:+ trim s.
Proof.
  induction s as [s IH] using string_length_ind.
  destruct (trim_cases s) as
    [[Hl ->]|[(c1 & s1 & -> & ->)|[(c1 & c2 & s2 & -> & ->)
     |(c1 & c2 & c3 & s3 & -> & ->)]]].
  - by exists "".
  - destruct (IH s1) as [pre Hp]; [cbn; lia |].
    exists (String c1 pre). rewrite Hp at 1. done.
  - destruct (IH s2) as [pre Hp]; [cbn; lia |].
    exists (String c1 (String c2 pre)). rewrite Hp at 1. done.
  - destruct (IH s3) as [pre Hp]; [cbn; lia |].
    exists (String c1 (String c2 (String c3 pre))). rewrite Hp at 1. done.
Qed.

Lemma leads_append (p q : string) : leads p = true -> leads (p +:+ q) = true.
Proof.
  destruct p as [|c1 p]; [done |].
  change (String c1 p +:+ q) with (String c1 (p +:+ q)). cbn [strings.leads].
  destruct (cut1 c1); [done |]. cbn [orb].
  destruct p as [|c2 p]; [intros H; discriminate H |].
  change (String c2 p +:+ q) with (String c2 (p +:+ q)). cbn beta iota.
  destruct (cut2 c1 c2); [done |]. cbn [orb].
  destruct p as [|c3 p]; [intros H; discriminate H |].
  change (String c3 p +:+ q) with (String c3 (p +:+ q)). done.
Qed.

(** Trimming does not go past a blocking byte. *)
Lemma trim_blocked (c : ascii) (v x : string) :
  strings.blocks cut1 cut2 cut3 c -> trim (v +:+ String c x) = trim v +:+ String c x.
Proof.
  intros (H1 & H2 & H3).
  assert (H0 : trim (String c x) = String c x).
  { apply trim_fix. cbn. rewrite H1. destruct x as [|x1 [|x2 x]]; cbn; [done | |].
    - by rewrite (proj1 (H2 x1)).
    - by rewrite (proj1 (H2 x1)), (proj1 (H3 x1 x2)). }
  induction v as [v IH] using string_length_ind.
  destruct v as [|v1 v]; [done |].
  push_append. cbn [strings.trimLeading].
  destruct (cut1 v1); [apply IH; cbn; lia |].
  destruct v as [|v2 v]; push_append.
  { rewrite (proj2 (H2 v1)). destruct x as [|x1 x]; [done |].
    by rewrite (proj1 (proj2 (H3 v1 x1))). }
  destruct (cut2 v1 v2); [apply IH; cbn; lia |].
  destruct v as [|v3 v]; push_append.
  { by rewrite (proj2 (proj2 (H3 v1 v2))). }
  destruct (cut3 v1 v2 v3); [apply IH; cbn; lia | done].
Qed.

End TrimFacts.

(** *** White space *)

Lemma solid_blocks (c : ascii) :
  strings.solid c = true ->
  strings.blocks unicode.isSpace1 unicode.isSpace2 unicode.isSpace3 c.
Proof.
  unfold strings.solid. intros [Hlt Hsp%negb_true_iff]%andb_true_iff.
  apply N.ltb_lt in Hlt.
  assert (Hk : forall k, (128 <= k)%N -> (N_of_ascii c =? k)%N = false).
  { intros k Hle. apply N.eqb_neq. lia. }
  assert (Hl : (128 <=? N_of_ascii c)%N = false) by (apply N.leb_gt; lia).
  split; [done |]. unfold unicode.isSpace2, unicode.isSpace3. cbn zeta.
  split; intros; repeat split;
    rewrite ?Hk, ?Hl by lia;
    rewrite ?andb_false_r, ?andb_false_l, ?orb_false_r, ?orb_false_l; done.
Qed.

Lemma solid_blocks_rev (c : ascii) :
  strings.solid c = true ->
  strings.blocks unicode.isSpace1 (fun c1 c2 => unicode.isSpace2 c2 c1)
    (fun c1 c2 c3 => unicode.isSpace3 c3 c2 c1) c.
Proof.
  intros (H1 & H2 & H3)%solid_blocks. split; [done |]. split.
  - intros x. destruct (H2 x). done.
  - intros x y. destruct (H3 y x) as (? & ? & ?).
    destruct (H3 x y) as (? & ? & ?). done.
Qed.

Lemma TrimLeft_blocked (c : ascii) (k x : string) :
  strings.solid c = true ->
  strings.TrimLeft (k +:+ String c x) = strings.TrimLeft k +:+ String c x.
Proof. intros H. apply trim_blocked, solid_blocks, H. Qed.

Lemma reverse_cons_append (a : string) (c : ascii) (x : string) :
  strings.reverse (a +:+ String c x)
  = strings.reverse x +:+ String c (strings.reverse a).
Proof.
  rewrite reverse_append. cbn [strings.reverse].
  rewrite append_assoc. by push_append.
Qed.

Lemma TrimRight_blocked (c : ascii) (a x : string) :
  strings.solid c = true ->
  strings.TrimRight (a +:+ String c x) = a +:+ String c (strings.TrimRight x).
Proof.
  intros H. unfold strings.TrimRight, strings.TrimLeftRev.
  rewrite reverse_cons_append.
  rewrite (trim_blocked _ _ _ _ _ _ (solid_blocks_rev c H)).
  rewrite reverse_cons_append, !reverse_involutive. done.
Qed.

Lemma TrimSpace_blocked (c : ascii) (k x : string) :
  strings.solid c = true ->
  strings.TrimSpace (k +:+ String c x)
  = strings.TrimLeft k +:+ String c (strings.TrimRight x).
Proof.
  intros H. unfold strings.TrimSpace.
  by rewrite TrimLeft_blocked, TrimRight_blocked.
Qed.

Lemma TrimLeft_suffix (s : string) : exists pre, s = pre +:+ strings.TrimLeft s.
Proof. apply trim_suffix. Qed.

Lemma TrimRight_prefix (s : string) : exists post, s = strings.TrimRight s +:+ post.
Proof.
  unfold strings.TrimRight, strings.TrimLeftRev.
  destruct (trim_suffix unicode.isSpace1 (fun c1 c2 => unicode.isSpace2 c2 c1)
              (fun c1 c2 c3 => unicode.isSpace3 c3 c2 c1) (strings.reverse s))
    as [pre Hpre].
  exists (strings.reverse pre).
  rewrite <- reverse_append, <- Hpre. by rewrite reverse_involutive.
Qed.

Lemma TrimRight_idemp (s : string) :
  strings.TrimRight (strings.TrimRight s) = strings.TrimRight s.
Proof.
  unfold strings.TrimRight, strings.TrimLeftRev.
  by rewrite reverse_involutive, trim_idemp.
Qed.

Lemma TrimLeft_fix (s : string) :
  strings.leads unicode.isSpace1 unicode.isSpace2 unicode.isSpace3 s = false ->
  strings.TrimLeft s = s.
Proof. apply trim_fix. Qed.

Lemma leads_TrimLeft (s : string) :
  strings.leads unicode.isSpace1 unicode.isSpace2 unicode.isSpace3
    (strings.TrimLeft s) = false.
Proof. apply leads_trim. Qed.

(** No white space leads a prefix of a string that none leads. *)
Lemma leads_prefix (p q : string) :
  strings.leads unicode.isSpace1 unicode.isSpace2 unicode.isSpace3 (p +:+ q)
  = false ->
  strings.leads unicode.isSpace1 unicode.isSpace2 unicode.isSpace3 p = false.
Proof.
  intros H.
  destruct (strings.leads _ _ _ p) eqn:Hp; [| done].
  by rewrite (leads_append _ _ _ p q Hp) in H.
Qed.

Lemma TrimLeft_TrimSpace (s : string) :
  strings.TrimLeft (strings.TrimSpace s) = strings.TrimSpace s.
Proof.
  apply TrimLeft_fix. unfold strings.TrimSpace.
  destruct (TrimRight_prefix (strings.TrimLeft s)) as [post Hpost].
  apply (leads_prefix _ post). rewrite <- Hpost. apply leads_TrimLeft.
Qed.

(** Trimming twice is trimming once. *)
Lemma TrimSpace_idemp (s : string) :
  strings.TrimSpace (strings.TrimSpace s) = strings.TrimSpace s.
Proof.
  unfold strings.TrimSpace at 1. rewrite TrimLeft_TrimSpace.
  unfold strings.TrimSpace. apply TrimRight_idemp.
Qed.

(** A string that trimming leaves alone has no white space at either
    end. *)
Lemma TrimSpace_fix (s : string) :
  strings.TrimSpace s = s -> strings.TrimLeft s = s /\ strings.TrimRight s = s.
Proof.
  intros H.
  assert (Hl : strings.TrimLeft s = s).
  { rewrite <- H at 1. rewrite TrimLeft_TrimSpace. exact H. }
  split; [done |]. unfold strings.TrimSpace in H. by rewrite Hl in H.
Qed.

Lemma hasByte_TrimLeft (c : ascii) (s : string) :
  strings.hasByte c s = false -> strings.hasByte c (strings.TrimLeft s) = false.
Proof.
  destruct (TrimLeft_suffix s) as [pre Hpre]. rewrite Hpre at 1.
  rewrite hasByte_append. by intros [_ ?]%orb_false_iff.
Qed.

Lemma hasByte_TrimRight (c : ascii) (s : string) :
  strings.hasByte c s = false -> strings.hasByte c (strings.TrimRight s) = false.
Proof.
  destruct (TrimRight_prefix s) as [post Hpost]. rewrite Hpost at 1.
  rewrite hasByte_append. by intros [? _]%orb_false_iff.
Qed.

Lemma hasByte_TrimSpace (c : ascii) (s : string) :
  strings.hasByte c s = false -> strings.hasByte c (strings.TrimSpace s) = false.
Proof. intros H. by apply hasByte_TrimRight, hasByte_TrimLeft. Qed.

(** *** Cutting at a byte *)

Lemma SplitN2_cases (s : string) (sep : ascii) :
  (strings.SplitN2 s sep = [s] /\ strings.hasByte sep s = false)
  \/ exists a b, strings.SplitN2 s sep = [a; b]
       /\ s = a +:+ String sep b /\ strings.hasByte sep a = false.
Proof.
  induction s as [|c s IH]; [by left |].
  cbn [strings.SplitN2 strings.hasByte].
  destruct (Ascii.eqb_spec c sep) as [->|Hne].
  - right. by exists "", s.
  - destruct IH as [[-> Hno]|(a & b & -> & -> & Hno)].
    + left. done.
    + right. exists (String c a), b. split; [done |]. split; [done |].
      cbn. apply Ascii.eqb_neq in Hne. by rewrite Hne, Hno.
Qed.

Lemma SplitN2_cut (a b : string) (sep : ascii) :
  strings.hasByte sep a = false ->
  strings.SplitN2 (a +:+ String sep b) sep = [a; b].
Proof.
  induction a as [|c a IH]; intros Hno; push_append; cbn [strings.SplitN2].
  - by rewrite Ascii.eqb_refl.
  - cbn in Hno. apply orb_false_iff in Hno as [Hc Ha].
    rewrite Hc, (IH Ha). done.
Qed.

Lemma SplitByte_nonempty (sep : ascii) (s : string) :
  strings.SplitByte sep s <> [].
Proof.
  destruct s as [|c s]; [done |]. cbn.
  destruct (Ascii.eqb c sep); [done |].
  by destruct (strings.SplitByte sep s).
Qed.

(** The lines of two contents put together with a line feed between
    them are the lines of both. *)
Lemma SplitByte_join (sep : ascii) (a b : string) :
  strings.SplitByte sep (a +:+ String sep b)
  = strings.SplitByte sep a ++ strings.SplitByte sep b.
Proof.
  induction a as [|c a IH]; push_append; cbn [strings.SplitByte].
  - by rewrite Ascii.eqb_refl.
  - destruct (Ascii.eqb c sep); rewrite IH; [done |].
    pose proof (SplitByte_nonempty sep a) as Hne.
    by destruct (strings.SplitByte sep a).
Qed.

Lemma SplitByte_whole (sep : ascii) (s : string) :
  strings.hasByte sep s = false -> strings.SplitByte sep s = [s].
Proof.
  induction s as [|c s IH]; [done |]. cbn.
  intros [Hc Hs]%orb_false_iff. by rewrite Hc, (IH Hs).
Qed.

Lemma SplitByte_pieces (sep : ascii) (s : string) :
  Forall (fun piece => strings.hasByte sep piece = false)
    (strings.SplitByte sep s).
Proof.
  induction s as [|c s IH]; [by repeat constructor |].
  cbn [strings.SplitByte]. destruct (Ascii.eqb c sep) eqn:Hc.
  - by constructor.
  - destruct (strings.SplitByte sep s) as [|e es].
    { constructor; [cbn; by rewrite Hc | constructor]. }
    inversion IH as [|? ? He Hes]; subst. constructor; [| done].
    cbn. by rewrite Hc, He.
Qed.

(** *** Scanning lines *)

Lemma dropCR_prefix (s : string) : exists post, s = bufio.dropCR s +:+ post.
Proof.
  induction s as [|c s IH]; [by exists "" |].
  destruct s as [|c' s].
  - cbn. destruct (Ascii.eqb c "013"); [by exists (String c "") | by exists ""].
  - destruct IH as [post Hpost]. exists post.
    change (bufio.dropCR (String c (String c' s)))
      with (String c (bufio.dropCR (String c' s))).
    push_append. by rewrite <- Hpost.
Qed.

Lemma dropCR_cons (c : ascii) (s : string) :
  Ascii.eqb c "013" = false ->
  bufio.dropCR (String c s) = String c (bufio.dropCR s).
Proof. intros H. destruct s; [cbn; by rewrite H | done]. Qed.

Lemma dropCR_append (a : string) (c : ascii) (s : string) :
  Ascii.eqb c "013" = false ->
  bufio.dropCR (a +:+ String c s) = a +:+ String c (bufio.dropCR s).
Proof.
  intros H. induction a as [|x a IH]; push_append; [by apply dropCR_cons |].
  destruct a as [|y a]; push_append.
  - change (bufio.dropCR (String x (String c s)))
      with (String x (bufio.dropCR (String c s))).
    by rewrite dropCR_cons.
  - change (bufio.dropCR (String x (String y (a +:+ String c s))))
      with (String x (bufio.dropCR (String y (a +:+ String c s)))).
    revert IH. push_append. by intros ->.
Qed.

Lemma hasByte_dropCR (c : ascii) (s : string) :
  strings.hasByte c s = false -> strings.hasByte c (bufio.dropCR s) = false.
Proof.
  destruct (dropCR_prefix s) as [post Hpost]. rewrite Hpost at 1.
  rewrite hasByte_append. by intros [? _]%orb_false_iff.
Qed.

Lemma tokens_pieces (pieces : list string) (text : string) :
  text ∈ bufio.tokens pieces ->
  exists piece, piece ∈ pieces /\ text = bufio.dropCR piece.
Proof.
  induction pieces as [|line rest IH]; [by intros ?%elem_of_nil |].
  destruct rest as [|line' rest].
  - cbn [bufio.tokens]. destruct (String.eqb line ""); [by intros ?%elem_of_nil |].
    destruct (bufio.fits line); [| by intros ?%elem_of_nil].
    intros ->%list_elem_of_singleton. exists line. split; [left | done].
  - change (bufio.tokens (line :: line' :: rest))
      with (if bufio.fits line
            then bufio.dropCR line :: bufio.tokens (line' :: rest) else []).
    destruct (bufio.fits line); [| by intros ?%elem_of_nil].
    intros [->|Hin]%elem_of_cons.
    + exists line. split; [left | done].
    + destruct (IH Hin) as (piece & Hp & ->). exists piece. split; [by right | done].
Qed.

(** The texts of the lines of a content have no line feed. *)
Lemma ScanLines_no_feed (content text : string) :
  text ∈ bufio.ScanLines content -> strings.hasByte "010" text = false.
Proof.
  intros (piece & Hin & ->)%tokens_pieces. apply hasByte_dropCR.
  pose proof (SplitByte_pieces "010" content) as Hall.
  rewrite Forall_forall in Hall. by apply Hall.
Qed.

(** *** The keys *)

Lemma scanLine_acc (keys : list string) (text : string) :
  main_test.scanLine keys text = keys ++ main_test.scanLine [] text.
Proof.
  unfold main_test.scanLine. cbn zeta.
  destruct (_ || _); [by rewrite app_nil_r |].
  destruct (strings.SplitN2 _ _) as [|part0 [|part1 [|? ?]]];
    try by rewrite app_nil_r.
  destruct (negb _); [done | by rewrite app_nil_r].
Qed.

Lemma fold_scanLine (texts acc : list string) :
  fold_left main_test.scanLine texts acc = acc ++ flat_map (main_test.scanLine []) texts.
Proof.
  revert acc. induction texts as [|text texts IH]; intros acc; cbn [fold_left flat_map].
  - by rewrite app_nil_r.
  - rewrite IH, scanLine_acc. by rewrite <- app_assoc.
Qed.

Lemma extractKeys_flat (content : string) :
  main_test.extractKeys content = flat_map (main_test.scanLine []) (bufio.ScanLines content).
Proof. unfold main_test.extractKeys. by rewrite fold_scanLine. Qed.

Lemma HasPrefix_hash (c : ascii) (s : string) :
  strings.HasPrefix (String c s) "#" = Ascii.eqb c "#".
Proof. destruct s; cbn; by rewrite andb_true_r. Qed.

Lemma eqb_nonempty (s : string) : String.eqb s "" = false -> exists c t, s = String c t.
Proof. destruct s as [|c t]; [done | by exists c, t]. Qed.

(** What one line adds is a key. *)
Lemma scanLine_isKey (text : string) :
  strings.hasByte "010" text = false ->
  Forall (fun key => EnvFile.isKey key = true) (main_test.scanLine [] text).
Proof.
  intros Hfeed. unfold main_test.scanLine. cbn zeta.
  destruct (_ || _) eqn:Hskip; [constructor |].
  apply orb_false_iff in Hskip as [Hempty Hhash].
  destruct (SplitN2_cases (strings.TrimSpace text) "=")
    as [[-> _]|(a & b & -> & Hline & Hno)]; [constructor |].
  destruct (String.eqb (strings.TrimSpace a) "") eqn:Hkey; [constructor |].
  cbn [negb app]. constructor; [| constructor].
  unfold EnvFile.isKey. rewrite Hkey, TrimSpace_idemp, String.eqb_refl.
  rewrite (hasByte_TrimSpace _ _ Hno). cbn [negb andb].
  assert (Hfa : strings.hasByte "010" a = false).
  { apply (hasByte_TrimSpace "010") in Hfeed. rewrite Hline in Hfeed.
    rewrite hasByte_append in Hfeed. by apply orb_false_iff in Hfeed as [? _]. }
  rewrite (hasByte_TrimSpace _ _ Hfa). cbn [negb andb].
  apply negb_true_iff.
  (* the key begins as the line does *)
  assert (Hla : strings.TrimLeft a = a).
  { apply TrimLeft_fix, (leads_prefix _ (String "=" b)). rewrite <- Hline.
    rewrite <- TrimLeft_TrimSpace. apply leads_TrimLeft. }
  unfold strings.TrimSpace in Hkey |- * at 1. rewrite Hla in Hkey |- *.
  destruct (TrimRight_prefix a) as [post Hpost].
  destruct (eqb_nonempty _ Hkey) as (c & t & Ht). rewrite Ht in Hpost |- *.
  rewrite Hpost in Hline. revert Hline. push_append. intros Hline.
  rewrite Hline, HasPrefix_hash in Hhash. by rewrite HasPrefix_hash.
Qed.

(** A line [KEY=VALUE] adds its key. *)
Lemma scanLine_pair (key value : string) :
  EnvFile.isKey key = true ->
  main_test.scanLine [] (bufio.dropCR (key +:+ "=" +:+ value)) = [key].
Proof.
  unfold EnvFile.isKey.
  intros [[[[Hne%negb_true_iff Htrim%String.eqb_eq]%andb_true_iff
    Heq%negb_true_iff]%andb_true_iff _]%andb_true_iff
    Hhash%negb_true_iff]%andb_true_iff.
  push_append. rewrite dropCR_append by done.
  unfold main_test.scanLine. cbn zeta. rewrite TrimSpace_blocked by done.
  destruct (TrimSpace_fix _ Htrim) as [-> _].
  destruct (eqb_nonempty _ Hne) as (c & t & Hkey).
  assert (Hskip : String.eqb (key +:+ String "=" (strings.TrimRight (bufio.dropCR value))) ""
            || strings.HasPrefix (key +:+ String "=" (strings.TrimRight (bufio.dropCR value))) "#"
            = false).
  { rewrite Hkey in Hhash |- *. push_append.
    rewrite HasPrefix_hash in Hhash |- *. by rewrite Hhash. }
  rewrite Hskip, (SplitN2_cut _ _ _ Heq), Htrim, Hne. done.
Qed.

(** A line without [=] adds nothing. *)
Lemma scanLine_no_equals (text : string) :
  strings.hasByte "=" text = false -> main_test.scanLine [] text = [].
Proof.
  intros Hno. unfold main_test.scanLine. cbn zeta.
  destruct (_ || _); [done |].
  destruct (SplitN2_cases (strings.TrimSpace text) "=")
    as [[-> _]|(a & b & _ & Hline & _)]; [done |].
  apply (hasByte_TrimSpace "=") in Hno. rewrite Hline, hasByte_append in Hno.
  cbn in Hno. by rewrite orb_true_r in Hno.
Qed.

(** A comment adds nothing. *)
Lemma scanLine_comment (indent text : string) :
  strings.TrimLeft indent = "" ->
  main_test.scanLine [] (bufio.dropCR (indent +:+ "#" +:+ text)) = [].
Proof.
  intros Hin. push_append. rewrite dropCR_append by done.
  unfold main_test.scanLine. cbn zeta. rewrite TrimSpace_blocked by done.
  rewrite Hin. push_append. by rewrite HasPrefix_hash.
Qed.

Lemma tokens_join (before after : list string) :
  forallb bufio.fits before = true -> after <> [] ->
  flat_map (main_test.scanLine []) (bufio.tokens (before ++ after))
  = flat_map (main_test.scanLine []) (bufio.tokens before)
    ++ flat_map (main_test.scanLine []) (bufio.tokens after).
Proof.
  intros Hfit Hafter. induction before as [|line rest IH]; [done |].
  cbn [forallb] in Hfit. apply andb_true_iff in Hfit as [Hline Hrest].
  destruct rest as [|line' rest].
  - destruct after as [|line' after]; [done |].
    change (bufio.tokens ([line] ++ line' :: after))
      with (if bufio.fits line
            then bufio.dropCR line :: bufio.tokens (line' :: after) else []).
    cbn [bufio.tokens]. rewrite Hline. cbn [flat_map].
    destruct (String.eqb_spec line "") as [->|_]; [done |].
    cbn [flat_map]. by rewrite app_nil_r.
  - change (bufio.tokens ((line :: line' :: rest) ++ after))
      with (if bufio.fits line
            then bufio.dropCR line :: bufio.tokens ((line' :: rest) ++ after)
            else []).
    change (bufio.tokens (line :: line' :: rest))
      with (if bufio.fits line
            then bufio.dropCR line :: bufio.tokens (line' :: rest) else []).
    rewrite Hline. cbn [flat_map]. rewrite (IH Hrest). by rewrite app_assoc.
Qed.

Lemma extractKeys_line (line rest : string) :
  bufio.fits line = true -> strings.hasByte "010" line = false ->
  main_test.extractKeys (line +:+ String "010" rest)
  = main_test.scanLine [] (bufio.dropCR line) ++ main_test.extractKeys rest.
Proof.
  intros Hfit Hno. rewrite !extractKeys_flat. unfold bufio.ScanLines.
  rewrite SplitByte_join, (SplitByte_whole _ _ Hno).
  rewrite tokens_join; [| by cbn [forallb]; rewrite Hfit | apply SplitByte_nonempty].
  f_equal. cbn [bufio.tokens]. rewrite Hfit.
  destruct (String.eqb_spec line "") as [->|_]; [done |].
  cbn [flat_map]. by rewrite app_nil_r.
Qed.

Lemma SplitByte_first (sep : ascii) (line rest : string) :
  strings.hasByte sep line = false ->
  exists e es, strings.SplitByte sep (line +:+ rest) = (line +:+ e) :: es.
Proof.
  intros Hno. induction line as [|c line IH]; push_append.
  - pose proof (SplitByte_nonempty sep rest).
    destruct (strings.SplitByte sep rest) as [|e es] eqn:Hs; [done |].
    exists e, es. by push_append.
  - cbn in Hno. apply orb_false_iff in Hno as [Hc Hline].
    destruct (IH Hline) as (e & es & Hs). exists e, es.
    cbn [strings.SplitByte]. rewrite Hc, Hs. by push_append.
Qed.

Lemma fits_append (line e : string) :
  bufio.fits line = false -> bufio.fits (line +:+ e) = false.
Proof.
  unfold bufio.fits. intros H%Nat.ltb_ge. apply Nat.ltb_ge.
  rewrite length_append. lia.
Qed.

Lemma extractKeys_overlong (line rest : string) :
  bufio.fits line = false -> strings.hasByte "010" line = false ->
  main_test.extractKeys (line +:+ rest) = [].
Proof.
  intros Hfit Hno. rewrite extractKeys_flat. unfold bufio.ScanLines.
  destruct (SplitByte_first "010" line rest Hno) as (e & es & ->).
  pose proof (fits_append line e Hfit) as Hlong.
  destruct es as [|e' es].
  - cbn [bufio.tokens]. rewrite Hlong. by destruct (String.eqb _ _).
  - change (bufio.tokens ((line +:+ e) :: e' :: es))
      with (if bufio.fits (line +:+ e)
            then bufio.dropCR (line +:+ e) :: bufio.tokens (e' :: es) else []).
    by rewrite Hlong.
Qed.

(** X14: every key that [extractKeys] returns is not empty, has no
    white space around it, holds no [=] and no line feed, and does not
    begin with [#]. *)
Theorem extractKeys_returns_keys (content : string) :
  Forall (fun key => EnvFile.isKey key = true) (main_test.extractKeys content).
Proof.
  rewrite extractKeys_flat. apply Forall_flat_map, Forall_forall.
  intros text Hin. apply scanLine_isKey.
  by apply (ScanLines_no_feed content).
Qed.

(** X15: [extractKeys] returns the keys of an env file made of lines
    [KEY=VALUE], in the order of the lines and with their repetitions.
    A value may hold [=], white space and a final carriage return. *)
Theorem extractKeys_render (pairs : list (string * string)) :
  forallb EnvFile.isPair pairs = true ->
  main_test.extractKeys (EnvFile.render pairs) = pairs.*1.
Proof.
  induction pairs as [|[key value] pairs IH]; [done |].
  cbn [forallb]. intros [Hpair Hrest]%andb_true_iff.
  unfold EnvFile.isPair in Hpair. cbn [fst snd] in Hpair.
  apply andb_true_iff in Hpair as [[Hkey Hvalue%negb_true_iff]%andb_true_iff Hfit].
  cbn [EnvFile.render fmap list_fmap fst].
  replace (key +:+ "=" +:+ value +:+ String "010" (EnvFile.render pairs))
    with ((key +:+ "=" +:+ value) +:+ String "010" (EnvFile.render pairs))
    by (by rewrite !append_assoc).
  rewrite extractKeys_line; [| done |].
  - rewrite (scanLine_pair _ _ Hkey), (IH Hrest). done.
  - unfold EnvFile.isKey in Hkey.
    apply andb_true_iff in Hkey as [[_ Hk%negb_true_iff]%andb_true_iff _].
    rewrite !hasByte_append, Hk, Hvalue. done.
Qed.

(** X16: the keys of two contents put together with a line feed are the keys
    of the first, then those of the second, when every line of the
    first fits the buffer of the scanner. *)
Theorem extractKeys_join (a b : string) :
  EnvFile.allFit a = true ->
  main_test.extractKeys (a +:+ String "010" b) = main_test.extractKeys a ++ main_test.extractKeys b.
Proof.
  intros Hfit. rewrite !extractKeys_flat. unfold bufio.ScanLines.
  rewrite SplitByte_join. apply tokens_join; [exact Hfit |].
  apply SplitByte_nonempty.
Qed.

(** X17: a line of 65536 bytes or more ends the scan without an error: the
    keys before it are returned, the keys after it are lost. *)
Theorem extractKeys_stops_at_long_line (a line rest : string) :
  EnvFile.allFit a = true ->
  bufio.fits line = false -> strings.hasByte "010" line = false ->
  main_test.extractKeys (a +:+ String "010" (line +:+ rest)) = main_test.extractKeys a.
Proof.
  intros Ha Hfit Hno.
  pose proof (extractKeys_overlong _ rest Hfit Hno) as Hlost.
  rewrite !extractKeys_flat in *. unfold bufio.ScanLines in *.
  rewrite SplitByte_join, tokens_join; [| exact Ha | apply SplitByte_nonempty].
  by rewrite Hlost, app_nil_r.
Qed.

(** X18: a comment line gives no key, also when it is indented and holds
    an [=]. *)
Theorem extractKeys_skips_comment (indent text rest : string) :
  strings.TrimLeft indent = "" ->
  bufio.fits (indent +:+ "#" +:+ text) = true ->
  strings.hasByte "010" (indent +:+ "#" +:+ text) = false ->
  main_test.extractKeys ((indent +:+ "#" +:+ text) +:+ String "010" rest)
  = main_test.extractKeys rest.
Proof.
  intros Hin Hfit Hno.
  by rewrite (extractKeys_line _ _ Hfit Hno), (scanLine_comment _ _ Hin).
Qed.

(** X19: a line without [=] gives no key. *)
Theorem extractKeys_skips_line_without_equals (line rest : string) :
  bufio.fits line = true ->
  strings.hasByte "010" line = false ->
  strings.hasByte "=" line = false ->
  main_test.extractKeys (line +:+ String "010" rest) = main_test.extractKeys rest.
Proof.
  intros Hfit Hno Heq. rewrite (extractKeys_line _ _ Hfit Hno).
  by rewrite (scanLine_no_equals _ (hasByte_dropCR _ _ Heq)).
Qed.

(** ** The claims on concrete runs *)

Lemma hello_always_200_witness :
  gin.ServeHTTP (Run.router Example.world "/api")
    (gin.mkRequest "GET" "/api/hello" "lang=en" [("Accept", "text/html")] "")
  = Some (Run.ok {[ "message" := "Hello, World!" ]}).
Proof.
  apply (hello_always_200 Example.ParseDuration Example.httpInfos Example.world
           Example.config 8080).
  - vm_compute. reflexivity.
  - apply list_elem_of_In. vm_compute. right. right. left. reflexivity.
  - reflexivity.
  - right. split; [|reflexivity].
    right. exists ["api"]. split; [done |]. split; [|reflexivity].
    apply Forall_singleton. split; [reflexivity |]. by intros [] stack.
Defined.

Lemma version_always_200_witness :
  gin.ServeHTTP (Run.router Example.world "/api")
    (gin.mkRequest "GET" "/api/version" "" [("X-Request-Id", "7")] "")
  = Some (Run.ok {[ "version" := "unknown" ]}).
Proof.
  apply (version_always_200 Example.ParseDuration Example.httpInfos Example.world
           Example.config 8080).
  - vm_compute. reflexivity.
  - apply list_elem_of_In. vm_compute. right. right. left. reflexivity.
  - reflexivity.
  - right. split; [|reflexivity].
    right. exists ["api"]. split; [done |]. split; [|reflexivity].
    apply Forall_singleton. split; [reflexivity |]. by intros [] stack.
Defined.

Lemma Start_returns_nil_after_stop_witness :
  outcome (Example.Start
             (mkWorld Example.environ None (Some SIGINT)
                (Some (OtherError "context deadline exceeded"))
                Example.wildcards))
  = Done None.
Proof.
  unfold Example.Start.
  rewrite (Start_returns_nil_after_stop Example.ParseDuration Example.httpInfos
             Example.environ None Example.wildcards Example.config SIGINT
             (Some (OtherError "context deadline exceeded"))).
  - reflexivity.
  - vm_compute. reflexivity.
  - apply list_elem_of_In. vm_compute.
    repeat (first [left; reflexivity | right]).
Defined.

Lemma telemetry_port_3030_witness :
  ListenTelemetry 3030 ∈ trace (Example.Start Example.world).
Proof.
  apply (proj2 (telemetry_port_3030 Example.ParseDuration Example.httpInfos
                  Example.world) [SIGINT; SIGTERM]).
  apply list_elem_of_In. vm_compute.
  repeat (first [left; reflexivity | right]).
Defined.

Lemma Start_aborts_on_bad_environment_witness :
  exists err,
    Example.Start (mkWorld (<[ "SHUTDOWN_TIMEOUT" := "soon" ]> Example.environ)
                     None None None Example.wildcards)
    = ([], Panicked err).
Proof.
  destruct (Start_aborts_on_bad_environment Example.ParseDuration Example.httpInfos
              Example.postgresCli Example.cliOther
              (mkWorld (<[ "SHUTDOWN_TIMEOUT" := "soon" ]> Example.environ)
                 None None None Example.wildcards)
              (app.shutdownTimeoutInfo Example.ParseDuration)
              migrations.sqlMigrations
              (migrate.Discover migrate.NewMigrations migrations.sqlMigrations).1
              "todo")
    as (err & HS & _).
  - apply elem_of_app. right. apply list_elem_of_here.
  - right. exists "soon". split; vm_compute; reflexivity.
  - vm_compute. reflexivity.
  - exists err. exact HS.
Defined.

Lemma init_panics_before_serving_witness :
  Example.process [("init.up.sql", "CREATE TABLE t ();")] Example.world
    ["todo"; "app"; "start"]
  = ([LogInfo "Discovering SQL migrations..."],
     Panicked (UnsupportedName "init.up.sql")).
Proof.
  apply (init_panics_before_serving Example.ParseDuration Example.httpInfos
           Example.postgresCli Example.cliOther _ []
           (UnsupportedName "init.up.sql")).
  vm_compute. reflexivity.
Defined.

Lemma Sorted_calls_agree_witness :
  (migrate.SortedCalls 3 Example.registry).2 = Example.registry.
Proof.
  refine (proj1 (Sorted_calls_agree Example.files Example.registry 3 _)).
  vm_compute. reflexivity.
Defined.


Lemma discovered_migration_scripts_witness :
  is_Some (migrate.Up Example.init) \/ is_Some (migrate.Down Example.init).
Proof.
  refine (proj1 (discovered_migration_scripts migrations.sqlMigrations
                   [Example.init] Example.init _ _)).
  - vm_compute. reflexivity.
  - apply list_elem_of_here.
Defined.

(** ** Further properties on concrete runs *)

Lemma Start_panics_on_refused_route_witness :
  exists path,
    outcome (Example.Start Example.catchAll) = Panicked (RouteRefused path)
    /\ (path = app.versionPath "/*x" \/ path = app.helloPath "/*x").
Proof.
  refine (proj1 (Start_panics_on_refused_route Example.ParseDuration
            Example.httpInfos Example.catchAll
            (app.mkConfig (ginserver.mkConfig 8080 "/*x" true) (5 * time.Second))
            _ _)).
  - vm_compute. reflexivity.
  - vm_compute. reflexivity.
Defined.

Lemma Start_returns_only_nil_witness :
  exists sig config,
    Delivered Example.world = Some sig
    /\ envconfig.Process (Environ Example.world)
         (app.gatherInfo Example.ParseDuration Example.httpInfos) app.zero
       = inr config
    /\ trace (Example.Start Example.world)
       = Run.startup Example.world config ++ Run.shutdown config sig.
Proof.
  refine (proj2 (Start_returns_only_nil Example.ParseDuration Example.httpInfos
                   Example.world None _)).
  vm_compute. reflexivity.
Defined.

Lemma Start_serves_until_signal_witness :
  [SIGINT; SIGTERM] = [SIGINT; SIGTERM]
  /\ Received SIGTERM ∈ trace (Example.Start Example.world)
  /\ outcome (Example.Start Example.world) = Done None.
Proof.
  refine (Start_serves_until_signal Example.ParseDuration Example.httpInfos
            Example.world [SIGINT; SIGTERM] _).
  apply list_elem_of_In. vm_compute.
  repeat (first [left; reflexivity | right]).
Defined.

Lemma Start_registers_two_routes_witness :
  exists config,
    envconfig.Process (Environ Example.world)
      (app.gatherInfo Example.ParseDuration Example.httpInfos) app.zero
    = inr config
    /\ "GET" = "GET"
    /\ ("/api/hello" = app.versionPath (ginserver.Prefix (app.HTTP config))
        \/ ("/api/hello" = app.helloPath (ginserver.Prefix (app.HTTP config))
            /\ Handle "GET" (app.versionPath (ginserver.Prefix (app.HTTP config)))
               ∈ trace (Example.Start Example.world))).
Proof.
  refine (Start_registers_two_routes Example.ParseDuration Example.httpInfos
            Example.world "GET" "/api/hello" _).
  apply list_elem_of_In. vm_compute. right. left. reflexivity.
Defined.

Lemma stop_timeout_from_environment_witness :
  exists d,
    Some (5 * time.Second) = Some d
    /\ Example.ParseDuration
         (default "20s" (Example.environ !! "SHUTDOWN_TIMEOUT")) = Some d.
Proof.
  refine (stop_timeout_from_environment Example.ParseDuration Example.httpInfos
            Example.world (Some (5 * time.Second)) _).
  apply list_elem_of_In. vm_compute.
  repeat (first [left; reflexivity | right]).
Defined.

Lemma config_reads_only_its_variables_witness :
  envconfig.Process (<[ "HOME" := "/root" ]> Example.environ)
    (app.gatherInfo Example.ParseDuration Example.httpInfos) app.zero
  = envconfig.Process Example.environ
      (app.gatherInfo Example.ParseDuration Example.httpInfos) app.zero.
Proof.
  refine (config_reads_only_its_variables Example.ParseDuration Example.httpInfos
            Example.environ (<[ "HOME" := "/root" ]> Example.environ) _).
  intros info Hin. apply list_elem_of_In in Hin. cbn in Hin.
  destruct Hin as [<-|[<-|[<-|[<-|[]]]]]; split; vm_compute; reflexivity.
Defined.

Lemma app_start_exit_status_witness :
  ExitStatus (outcome (Example.process migrations.sqlMigrations Example.world
                         ["todo"; "app"; "start"]))
  = ExitStatus (outcome (Example.Start Example.world)).
Proof.
  refine (proj1 (proj2 (app_start_exit_status Example.ParseDuration
            Example.httpInfos Example.postgresCli Example.cliOther
            migrations.sqlMigrations [Example.init] Example.world "todo" _))).
  vm_compute. reflexivity.
Defined.

Lemma script_iff_file_witness :
  is_Some (Discovery.script Discovery.up Example.init).
Proof.
  refine (proj2 (script_iff_file migrations.sqlMigrations [Example.init]
                   Example.init Discovery.up _ _) _).
  - vm_compute. reflexivity.
  - apply list_elem_of_here.
  - exists "20251105065350_init.up.sql", "init". split; [| split].
    + apply list_elem_of_here.
    + vm_compute. reflexivity.
    + vm_compute. reflexivity.
Defined.

Lemma registry_names_witness :
  NoDup (migrate.Name <$> Example.registry).
Proof.
  refine (proj1 (registry_names Example.files Example.registry _)).
  vm_compute. reflexivity.
Defined.

Lemma extractKeys_render_witness :
  main_test.extractKeys
    (EnvFile.render [("HTTP_PORT", "8080"); ("DSN", "host=db user=todo");
                     ("HTTP_PORT", "")])
  = ["HTTP_PORT"; "DSN"; "HTTP_PORT"].
Proof.
  refine (extractKeys_render [("HTTP_PORT", "8080"); ("DSN", "host=db user=todo");
                              ("HTTP_PORT", "")] _).
  vm_compute. reflexivity.
Defined.

Lemma extractKeys_join_witness :
  main_test.extractKeys ("A=1" +:+ String "010" "B=2")
  = main_test.extractKeys "A=1" ++ main_test.extractKeys "B=2".
Proof.
  refine (extractKeys_join "A=1" "B=2" _). vm_compute. reflexivity.
Defined.

Lemma extractKeys_stops_at_long_line_witness :
  main_test.extractKeys
    ("A=1" +:+ String "010" (Example.longLine +:+ String "010" "B=2"))
  = main_test.extractKeys "A=1".
Proof.
  refine (extractKeys_stops_at_long_line "A=1" Example.longLine
            (String "010" "B=2") _ _ _); vm_compute; reflexivity.
Defined.

Lemma extractKeys_skips_comment_witness :
  main_test.extractKeys
    (("  " +:+ "#" +:+ " A=1") +:+ String "010" "B=2")
  = main_test.extractKeys "B=2".
Proof.
  refine (extractKeys_skips_comment "  " " A=1" "B=2" _ _ _);
    vm_compute; reflexivity.
Defined.

Lemma extractKeys_skips_line_without_equals_witness :
  main_test.extractKeys ("export" +:+ String "010" "B=2")
  = main_test.extractKeys "B=2".
Proof.
  refine (extractKeys_skips_line_without_equals "export" "B=2" _ _ _);
    vm_compute; reflexivity.
Defined.
